(** * Verification of the [duplicates] package

    A shallow embedding of [src/duplicates/duplicates.py] together with the
    parts of its environment the code relies on: the SHA-256 digest of
    [hashlib], a POSIX file system seen through [open], [os.walk],
    [os.path.isfile], [os.path.getsize] and [os.path.abspath], and the
    pandas operations used on the two-column tables. *)

From Stdlib Require Import ZArith Lia Ascii String List.
From Stdlib.Strings Require Import Byte.
From Equations Require Import Equations.
From stdpp Require Import base decidable option list strings sorting.

(** ** SHA-256 (FIPS 180-4), the digest behind [hashlib.sha256] *)

Module SHA256.
Local Open Scope Z_scope.

(** 32-bit words are integers in [0, 2^32); every operation wraps. *)
Definition wrap (x : Z) : Z := Z.land x 0xffffffff.
Definition add32 (x y : Z) : Z := wrap (x + y).
Definition rotr (n x : Z) : Z :=
  wrap (Z.lor (Z.shiftr x n) (Z.shiftl x (32 - n))).
Definition shr (n x : Z) : Z := Z.shiftr x n.
Definition not32 (x : Z) : Z := Z.lxor x 0xffffffff.

Definition Ch (x y z : Z) : Z :=
  Z.lxor (Z.land x y) (Z.land (not32 x) z).
Definition Maj (x y z : Z) : Z :=
  Z.lxor (Z.lxor (Z.land x y) (Z.land x z)) (Z.land y z).
Definition bsig0 (x : Z) : Z :=
  Z.lxor (Z.lxor (rotr 2 x) (rotr 13 x)) (rotr 22 x).
Definition bsig1 (x : Z) : Z :=
  Z.lxor (Z.lxor (rotr 6 x) (rotr 11 x)) (rotr 25 x).
Definition ssig0 (x : Z) : Z :=
  Z.lxor (Z.lxor (rotr 7 x) (rotr 18 x)) (shr 3 x).
Definition ssig1 (x : Z) : Z :=
  Z.lxor (Z.lxor (rotr 17 x) (rotr 19 x)) (shr 10 x).

(** The constants are given by their FIPS 180-4 definition: the first
    32 bits of the fractional parts of the cube roots (round constants)
    and of the square roots (initial registers) of the first primes. *)
Definition is_prime (n : Z) : bool :=
  forallb (fun d => negb (n mod Z.of_nat d =? 0)) (seq 2 (Z.to_nat n - 2)%nat).

Definition primes : list Z :=
  Eval vm_compute in filter is_prime (map Z.of_nat (seq 2 310)).

(** Integer cube root, one bit at a time from bit [bits - 1] down. *)
Fixpoint cbrt_bits (bits : nat) (n r : Z) : Z :=
  match bits with
  | O => r
  | S b =>
      let r' := r + 2 ^ Z.of_nat b in
      cbrt_bits b n (if r' * r' * r' <=? n then r' else r)
  end.

Definition frac_cbrt (p : Z) : Z := wrap (cbrt_bits 36 (p * 2 ^ 96) 0).
Definition frac_sqrt (p : Z) : Z := wrap (Z.sqrt (p * 2 ^ 64)).

Definition K : list Z := Eval vm_compute in map frac_cbrt primes.

(** The eight chaining registers. *)
Record regs : Type := Regs {
  ra : Z; rb : Z; rc : Z; rd : Z; re : Z; rf : Z; rg : Z; rh : Z
}.

Definition regs_of (ws : list Z) : regs :=
  Regs (nth 0 ws 0) (nth 1 ws 0) (nth 2 ws 0) (nth 3 ws 0)
       (nth 4 ws 0) (nth 5 ws 0) (nth 6 ws 0) (nth 7 ws 0).

Definition H0 : regs :=
  Eval vm_compute in regs_of (map frac_sqrt (firstn 8 primes)).

Definition byte_val (b : byte) : Z := Z.of_N (Byte.to_N b).

(** Big-endian 32-bit words of a block of bytes. *)
Fixpoint be_words (bs : list Z) : list Z :=
  match bs with
  | b0 :: b1 :: b2 :: b3 :: rest =>
      Z.lor (Z.shiftl b0 24)
        (Z.lor (Z.shiftl b1 16) (Z.lor (Z.shiftl b2 8) b3))
      :: be_words rest
  | _ => []
  end.

(** Message schedule: [extend n ws] appends [n] further words to the
    schedule [ws], which is kept most recent word first. *)
Fixpoint extend (n : nat) (rev_ws : list Z) : list Z :=
  match n with
  | O => rev_ws
  | S n' =>
      let w := add32 (add32 (ssig1 (nth 1 rev_ws 0)) (nth 6 rev_ws 0))
                     (add32 (ssig0 (nth 14 rev_ws 0)) (nth 15 rev_ws 0)) in
      extend n' (w :: rev_ws)
  end.

Definition schedule (block : list Z) : list Z :=
  rev (extend 48 (rev (be_words block))).

Definition round (s : regs) (kw : Z * Z) : regs :=
  let '(k, w) := kw in
  let t1 := add32 (add32 (add32 (rh s) (bsig1 (re s)))
                         (add32 (Ch (re s) (rf s) (rg s)) k)) w in
  let t2 := add32 (bsig0 (ra s)) (Maj (ra s) (rb s) (rc s)) in
  Regs (add32 t1 t2) (ra s) (rb s) (rc s) (add32 (rd s) t1)
       (re s) (rf s) (rg s).

Definition compress (h : regs) (block : list Z) : regs :=
  let s := fold_left round (combine K (schedule block)) h in
  Regs (add32 (ra h) (ra s)) (add32 (rb h) (rb s))
       (add32 (rc h) (rc s)) (add32 (rd h) (rd s))
       (add32 (re h) (re s)) (add32 (rf h) (rf s))
       (add32 (rg h) (rg s)) (add32 (rh h) (rh s)).

(** Padding: a single 1 bit, zeros up to 56 mod 64 bytes, then the
    message length in bits as a 64-bit big-endian integer. *)
Definition be_bytes64 (n : Z) : list Z :=
  map (fun i => Z.land (Z.shiftr n (8 * i)) 0xff) [7; 6; 5; 4; 3; 2; 1; 0].

Definition pad (msg : list Z) : list Z :=
  let len := Z.of_nat (length msg) in
  let zeros := Z.to_nat ((55 - len) mod 64) in
  msg ++ 0x80 :: repeat 0 zeros ++ be_bytes64 (8 * len).

(** The padded message is consumed 64 bytes at a time. *)
Fixpoint blocks (fuel : nat) (h : regs) (bs : list Z) : regs :=
  match fuel, bs with
  | S fuel', _ :: _ => blocks fuel' (compress h (firstn 64 bs)) (skipn 64 bs)
  | _, _ => h
  end.

Definition digest (msg : list byte) : regs :=
  let p := pad (map byte_val msg) in
  blocks (length p) H0 p.

(** Lowercase hexadecimal rendering of the 256-bit digest. *)
Definition hex_digit (n : Z) : ascii :=
  match n with
  | 0 => "0" | 1 => "1" | 2 => "2" | 3 => "3" | 4 => "4"
  | 5 => "5" | 6 => "6" | 7 => "7" | 8 => "8" | 9 => "9"
  | 10 => "a" | 11 => "b" | 12 => "c" | 13 => "d" | 14 => "e"
  | _ => "f"
  end%char.

Definition nibble (w i : Z) : Z := Z.land (Z.shiftr w (4 * i)) 0xf.

Definition hex_word (w : Z) (rest : string) : string :=
  String (hex_digit (nibble w 7)) (String (hex_digit (nibble w 6))
 (String (hex_digit (nibble w 5)) (String (hex_digit (nibble w 4))
 (String (hex_digit (nibble w 3)) (String (hex_digit (nibble w 2))
 (String (hex_digit (nibble w 1)) (String (hex_digit (nibble w 0))
   rest))))))).

Definition hex (r : regs) : string :=
  hex_word (ra r) (hex_word (rb r) (hex_word (rc r) (hex_word (rd r)
 (hex_word (re r) (hex_word (rf r) (hex_word (rg r) (hex_word (rh r)
   ""))))))).

End SHA256.

(** ** Exceptions

    Fallible operations return a [result]: either a value or the exception
    that Python would raise. *)

Inductive exn : Type := OSError | ValueError | IndexError | OverflowError.

Inductive result (A : Type) : Type :=
  | Ok (a : A)
  | Raise (e : exn).
Arguments Ok {A} a.
Arguments Raise {A} e.

Global Instance result_ret : MRet result := fun A a => Ok a.
Global Instance result_bind : MBind result := fun A B k r =>
  match r with
  | Ok a => k a
  | Raise e => Raise e
  end.

Fixpoint map_result {A B : Type} (f : A -> result B) (l : list A)
  : result (list B) :=
  match l with
  | [] => Ok []
  | a :: l' => b ← f a; bs ← map_result f l'; Ok (b :: bs)
  end.

Local Open Scope string_scope.
Local Open Scope nat_scope.
Local Open Scope list_scope.
Local Open Scope stdpp_scope.

(** ** [posixpath]: the string functions behind [os.path] *)

Module posixpath.

Definition sep : ascii := "/"%char.

(** [str.split('/')] *)
Fixpoint split (s : string) : list string :=
  match s with
  | "" => [""]
  | String c s' =>
      if decide (c = sep) then "" :: split s'
      else match split s' with
           | h :: t => String c h :: t
           | [] => [String c ""]
           end
  end.

(** ['/'.join(comps)] *)
Fixpoint join_sep (comps : list string) : string :=
  match comps with
  | [] => ""
  | [c] => c
  | c :: rest => c +:+ String sep (join_sep rest)
  end.

Definition startswith (p s : string) : bool := String.prefix p s.

Fixpoint endswith_sep (s : string) : bool :=
  match s with
  | "" => false
  | String c "" => bool_decide (c = sep)
  | String _ s' => endswith_sep s'
  end.

Definition isabs (s : string) : bool := startswith "/" s.

(** [os.path.join(a, b)] *)
Definition join (a b : string) : string :=
  if startswith "/" b then b
  else if bool_decide (a = "") || endswith_sep a then a +:+ b
  else a +:+ String sep b.

(** The loop of [normpath] over the components; [new_comps] is kept
    last component first. *)
Fixpoint norm_comps (initial_slashes : nat) (comps new_comps : list string)
  : list string :=
  match comps with
  | [] => new_comps
  | comp :: rest =>
      if bool_decide (comp = "") || bool_decide (comp = ".") then
        norm_comps initial_slashes rest new_comps
      else if bool_decide (comp ≠ "..")
              || (bool_decide (initial_slashes = 0%nat)
                  && bool_decide (new_comps = []))
              || bool_decide (head new_comps = Some "..") then
        norm_comps initial_slashes rest (comp :: new_comps)
      else
        norm_comps initial_slashes rest (tail new_comps)
  end.

Definition initial_slashes (path : string) : nat :=
  if startswith "/" path then
    if startswith "//" path && negb (startswith "///" path) then 2%nat
    else 1%nat
  else 0%nat.

Fixpoint slashes (n : nat) : string :=
  match n with
  | O => ""
  | S n' => String sep (slashes n')
  end.

Definition normpath (path : string) : string :=
  if decide (path = "") then "."
  else
    let n := initial_slashes path in
    let comps := rev (norm_comps n (split path) []) in
    let path' := slashes n +:+ join_sep comps in
    if decide (path' = "") then "." else path'.

Definition abspath (cwd path : string) : string :=
  normpath (if isabs path then path else join cwd path).

(** [str.rfind(c)]: index of the last occurrence, scanning with the
    current index [i]. *)
Fixpoint rfind_from (c : ascii) (s : string) (i : nat) : option nat :=
  match s with
  | "" => None
  | String c' s' =>
      match rfind_from c s' (S i) with
      | Some j => Some j
      | None => if decide (c' = c) then Some i else None
      end
  end.

Definition rfind (c : ascii) (s : string) : option nat := rfind_from c s 0.

(** [p[lo:hi]] contains a character other than ['.']. *)
Definition has_non_dot (p : string) (lo hi : nat) : bool :=
  negb (forallb (fun c => bool_decide (c = "."%char))
          (take (hi - lo) (drop lo (list_ascii_of_string p)))).

(** [os.path.splitext(p)] *)
Definition splitext (p : string) : string * string :=
  let filename_index :=
    match rfind sep p with Some i => S i | None => 0%nat end in
  match rfind "."%char p with
  | Some dot_index =>
      if bool_decide (filename_index ≤ dot_index)%nat
         && has_non_dot p filename_index dot_index
      then (String.substring 0 dot_index p,
            String.substring dot_index (String.length p - dot_index) p)
      else (p, "")
  | None => (p, "")
  end.

End posixpath.

(** ** The file system and the standard output

    A tree of directories.  A regular file has its content and tells
    whether it can be opened and read: [Denied] files fail at [open],
    [BadFrom n] files can be opened but reading past offset [n] fails.
    [Dangling] is a directory entry that names nothing that can be
    opened (a broken symbolic link).

    The environment also tells which characters [sys.stdout] can
    encode.  No name of a directory entry holds a NUL character, and
    the model covers the environments in which the standard output can
    print the names of the tree: both are part of the record.  The
    paths a caller passes are any strings: a path with a NUL character
    is refused by [open] with [ValueError], and a path the standard
    output cannot encode makes [print] raise. *)

Inductive access : Type :=
  | Readable
  | Denied
  | BadFrom (n : nat).

#[warnings="-register-all"]
Inductive node : Type :=
  | File (content : list byte) (acc : access)
  | Dir (entries : list (string * node))
  | Dangling.

Definition nul : ascii := Ascii.zero.

Definition has_nul (path : string) : bool :=
  existsb (fun c => bool_decide (c = nul)) (list_ascii_of_string path).

(** A name without NUL that [encodes] can encode. *)
Definition valid_name (encodes : ascii -> bool) (name : string) : bool :=
  forallb (fun c => negb (bool_decide (c = nul)) && encodes c)
    (list_ascii_of_string name).

Fixpoint valid_node (encodes : ascii -> bool) (n : node) {struct n} : bool :=
  match n with
  | Dir es =>
      (fix valid_entries (es : list (string * node)) : bool :=
         match es with
         | [] => true
         | (name, child) :: es' =>
             valid_name encodes name && valid_node encodes child
             && valid_entries es'
         end) es
  | _ => true
  end.

Record filesystem : Type := FileSystem {
  root : list (string * node);    (* entries of "/" *)
  cwd : string;                   (* os.getcwd() *)
  dir_size : Z;                   (* st_size reported for directories *)
  stdout_encodes : ascii -> bool; (* what sys.stdout can encode *)
  names_ok :
    stdout_encodes "/" && stdout_encodes "."
    && valid_node stdout_encodes (Dir root) = true
}.

Definition path_max : nat := 4096.

Fixpoint lookup_entry (name : string) (entries : list (string * node))
  : option node :=
  match entries with
  | [] => None
  | (n, x) :: rest => if decide (n = name) then Some x else lookup_entry name rest
  end.

(** Path resolution, one component at a time; [anc] holds the
    directories above [cur], nearest first. *)
Fixpoint descend (anc : list node) (cur : node) (comps : list string)
  : option (list node * node) :=
  match comps with
  | [] => Some (anc, cur)
  | c :: rest =>
      match cur with
      | Dir es =>
          if bool_decide (c = "") || bool_decide (c = ".") then
            descend anc cur rest
          else if bool_decide (c = "..") then
            match anc with
            | [] => descend [] cur rest
            | p :: anc' => descend anc' p rest
            end
          else
            match lookup_entry c es with
            | Some x => descend (cur :: anc) x rest
            | None => None
            end
      | _ => None
      end
  end.

Definition resolve (fs : filesystem) (path : string) : option node :=
  if decide (path = "") then None
  else if has_nul path then None
  else if bool_decide (path_max ≤ String.length path)%nat then None
  else if posixpath.isabs path then
    snd <$> descend [] (Dir (root fs)) (posixpath.split path)
  else
    '(anc, cur) ← descend [] (Dir (root fs)) (posixpath.split (cwd fs));
    snd <$> descend anc cur (posixpath.split path).

(** [os.path.isfile] and [os.path.getsize]: the first answers [False]
    where the path cannot be examined, a path with a NUL character
    included; the second raises then. *)
Definition isfile (fs : filesystem) (path : string) : bool :=
  match resolve fs path with
  | Some (File _ _) => true
  | _ => false
  end.

Definition getsize (fs : filesystem) (path : string) : result Z :=
  if has_nul path then Raise ValueError
  else
    match resolve fs path with
    | Some (File content _) => Ok (Z.of_nat (length content))
    | Some (Dir _) => Ok (dir_size fs)
    | _ => Raise OSError
    end.

(** An open binary stream: the bytes still to be delivered, and whether
    the stream ends in a read error rather than in end-of-file. *)
Record stream : Type := Stream {
  pending : list byte;
  fault : bool
}.

(** [open(file, 'rb')]: [ValueError] for a path with a NUL character
    ("embedded null byte"), [OSError] for any other path that cannot be
    opened. *)
Definition open (fs : filesystem) (path : string) : result stream :=
  if has_nul path then Raise ValueError
  else
    match resolve fs path with
    | Some (File content Readable) => Ok (Stream content false)
    | Some (File content (BadFrom n)) => Ok (Stream (take n content) true)
    | _ => Raise OSError
    end.

(** [message.read(size)]: [size] bytes, fewer only at end-of-file;
    [-1] reads everything.  The size is first converted to a machine
    word, which raises [OverflowError] when it does not fit; a size
    below [-1] is then refused with [ValueError].  Memory is not
    modelled: a size the memory cannot hold is served here, where
    Python raises [MemoryError]. *)
Definition read (message : stream) (size : Z) : result (list byte * stream) :=
  if bool_decide (size < - 2 ^ 63)%Z || bool_decide (2 ^ 63 ≤ size)%Z
  then Raise OverflowError
  else if bool_decide (size < -1)%Z then Raise ValueError
  else
    let n := Z.to_nat size in
    if bool_decide (0 ≤ size)%Z && bool_decide (n ≤ length (pending message))%nat
    then Ok (take n (pending message),
             Stream (drop n (pending message)) (fault message))
    else if fault message then Raise OSError
    else Ok (pending message, Stream [] false).

(** [print(file, end='\r')]: the text goes to the standard output,
    which raises [UnicodeEncodeError], a [ValueError], on a character it
    cannot encode.  The carriage return that ends the line is a
    character every encoding of a standard output has. *)
Definition printable (fs : filesystem) (text : string) : bool :=
  forallb (stdout_encodes fs) (list_ascii_of_string text).

Definition print (fs : filesystem) (text : string) : result unit :=
  if printable fs text then Ok tt else Raise ValueError.

(** [os.walk(top)], top-down, not following links.  The [OSError] of a
    scan is ignored: a top that is not a directory gives no triple.  A
    top with a NUL character is outside the model: [scandir] raises
    [ValueError] there, which [os.walk] lets through, and [walk] gives
    no triple for it either; what is proved of a listing is proved of
    the listing of a top without NUL. *)
Definition is_dir (n : node) : bool :=
  match n with Dir _ => true | _ => false end.

Definition dirnames (entries : list (string * node)) : list string :=
  fst <$> filter (fun e => is_dir e.2) entries.

Definition nondirnames (entries : list (string * node)) : list string :=
  fst <$> filter (fun e => negb (is_dir e.2)) entries.

Fixpoint walk_tree (top : string) (n : node) {struct n}
  : list (string * list string * list string) :=
  match n with
  | Dir es =>
      if bool_decide (path_max ≤ String.length top)%nat then []
      else
        (top, dirnames es, nondirnames es) ::
        (fix subdirs (es : list (string * node)) :=
           match es with
           | [] => []
           | (name, child) :: es' =>
               walk_tree (posixpath.join top name) child ++ subdirs es'
           end) es
  | _ => []
  end.

Definition walk (fs : filesystem) (top : string)
  : list (string * list string * list string) :=
  match resolve fs top with
  | Some n => walk_tree top n
  | None => []
  end.

(** ** [hashlib.sha256]

    The hash object is modelled by the message it has absorbed:
    [update] appends, [hexdigest] renders the digest of the whole. *)

Module hashlib.
Definition sha256 : Type := list byte.
Definition new : sha256 := [].
Definition update (m : sha256) (data : list byte) : sha256 := m ++ data.
Definition hexdigest (m : sha256) : string := SHA256.hex (SHA256.digest m).
End hashlib.

(** ** The pandas operations used on the tables

    A two-column frame is the list of its rows in positional order; the
    first column is always ['file'].  Row labels are not modelled: the
    code never reads them. *)

Module pandas.

Definition frame (V : Type) : Type := list (string * V).

(** [df = DataFrame(columns=[c1, c2]); df[c1] = xs; df[c2] = ys]:
    the second assignment needs as many values as there are rows. *)
Definition from_columns {V : Type} (xs : list string) (ys : list V)
  : result (frame V) :=
  if decide (length xs = length ys) then Ok (zip xs ys)
  else Raise ValueError.

Definition occurrences `{EqDecision V} (v : V) (col : list V) : nat :=
  length (filter (fun x => x = v) col).

(** [col.duplicated(keep=False)]: marks every value that occurs more
    than once. *)
Definition duplicated `{EqDecision V} (col : list V) : list bool :=
  (fun v => bool_decide (2 ≤ occurrences v col)) <$> col.

(** [col == v] *)
Definition eq_scalar `{EqDecision V} (col : list V) (v : V) : list bool :=
  (fun x => bool_decide (x = v)) <$> col.

(** [df[mask]]: the rows at which the mask is [True]. *)
Fixpoint select {A : Type} (rows : list A) (mask : list bool) : list A :=
  match rows, mask with
  | r :: rows', b :: mask' =>
      if b then r :: select rows' mask' else select rows' mask'
  | _, _ => []
  end.

(** [take]: the rows at the given positions, in the given order. *)
Definition take_rows {A : Type} (indexer : list nat) (rows : list A)
  : result (list A) :=
  map_result (fun i => match rows !! i with
                       | Some r => Ok r
                       | None => Raise IndexError
                       end) indexer.

(** [numpy.nonzero(key)[0]] of a two-dimensional boolean array: the row
    number of every [True] cell, in row-major order. *)
Definition nonzero_rows (key : list (list bool)) : list nat :=
  mjoin (imap (fun i row => (fun _ => i) <$> filter (fun b => b = true) row) key).

(** [df.iloc[key]] for a list of boolean rows [key]. *)
Definition iloc {A : Type} (rows : list A) (key : list (list bool))
  : result (list A) :=
  take_rows (nonzero_rows key) rows.

(** [df.drop_duplicates(subset='file')]: the first row of every path;
    [seen] holds the paths of the rows passed so far. *)
Fixpoint drop_duplicates_from {V : Type} (seen : list string)
  (rows : frame V) : frame V :=
  match rows with
  | [] => []
  | r :: rows' =>
      if decide (r.1 ∈ seen) then drop_duplicates_from seen rows'
      else r :: drop_duplicates_from (r.1 :: seen) rows'
  end.

Definition drop_duplicates {V : Type} (rows : frame V) : frame V :=
  drop_duplicates_from [] rows.

(** A sorting algorithm, as selected by the [kind] argument of
    [sort_values]: it returns the positions of the keys in ascending
    order of the keys. *)
Class SortKind : Type := {
  argsort : list string -> list nat;
  argsort_perm : forall keys, argsort keys ≡ₚ seq 0 (length keys);
  argsort_sorted : forall keys,
    Sorted String.le (omap (fun i => keys !! i) (argsort keys))
}.

(** [df.sort_values(by='hash')] *)
Definition sort_values `{SortKind} (df : frame string)
  : result (frame string) :=
  take_rows (argsort (snd <$> df)) df.

End pandas.

(** ** The program: [duplicates.py] *)

Definition table : Type := pandas.frame string.

Definition file_column {V : Type} (df : pandas.frame V) : list string := fst <$> df.
Definition hash_column (df : table) : list string := snd <$> df.

Fixpoint replace (old new : ascii) (s : string) : string :=
  match s with
  | "" => ""
  | String c s' =>
      String (if decide (c = old) then new else c) (replace old new s')
  end.

Definition format_path (fs : filesystem) (file : string) : string :=
  posixpath.abspath (cwd fs) (replace "/" posixpath.sep file).

Definition filelist (fs : filesystem) (filepath : string) (ext : option string)
  : list string :=
  '(path, _, files) ← walk fs filepath;
  name ← files;
  let extension := (posixpath.splitext name).2 in
  if bool_decide (ext = None) || bool_decide (Some extension = ext)
  then [posixpath.join path name] else [].

Definition inspect {A : Type} (a : A) : {b : A | a = b} := exist _ a eq_refl.

(** The loop of [hashfile]: absorb [block] and read the next one until
    an empty block signals the end of the stream. *)
Equations? update_blocks (block_size : Z) (m : hashlib.sha256)
  (block : list byte) (message : stream) : result hashlib.sha256
  by wf (length block + length (pending message))%nat lt :=
  update_blocks block_size m [] message := Ok m;
  update_blocks block_size m (b :: bs) message
    with inspect (read message block_size) => {
    | exist _ (Raise e) _ := Raise e;
    | exist _ (Ok (block', message')) Hread :=
        update_blocks block_size (hashlib.update m (b :: bs)) block' message' }.
Proof.
  unfold read in Hread. cbn [length].
  destruct (_ || _); [done|].
  destruct (bool_decide (block_size < -1)%Z); [done|].
  destruct (_ && _) eqn:Hsz.
  - inversion Hread; subst; clear Hread. cbn [pending].
    rewrite length_take, length_drop. lia.
  - destruct (fault message); inversion Hread; subst. cbn. lia.
Qed.

Definition hashfile (fs : filesystem) (file : string) (block_size : Z)
  : result string :=
  message ← open fs file;
  let m := hashlib.new in
  '(block, message) ← read message block_size;
  m ← update_blocks block_size m block message;
  Ok (hashlib.hexdigest m).

Definition default_block_size : Z := 65536.

Definition no_hash : string := "No hash could be generated".

(** The argument of [hashtable] is a list of paths or a single path.
    Each path is printed, outside the [try], before it is hashed. *)
Inductive files_arg : Type :=
  | OnePath (file : string)
  | Paths (files : list string).

Definition hashtable (fs : filesystem) (files : files_arg)
  : result (list string) :=
  let files := match files with Paths l => l | OnePath f => [f] end in
  foldl (fun acc file =>
           hash_identifier ← acc;
           _ ← print fs file;
           match hashfile fs file default_block_size with
           | Ok h => Ok (hash_identifier ++ [h])
           | Raise OSError => Ok (hash_identifier ++ [no_hash])
           | Raise e => Raise e
           end) (Ok []) files.

Definition preselect (fs : filesystem) (input_files : list string)
  : result (list string) :=
  let checked_files := filter (fun file => isfile fs file) input_files in
  sizes ← map_result (getsize fs) checked_files;
  summary_df ← pandas.from_columns checked_files sizes;
  let summary_df :=
    pandas.select summary_df (pandas.duplicated (snd <$> summary_df)) in
  Ok (file_column summary_df).

Definition create_table (fs : filesystem) (folder : string)
  (ext : option string) (pre : bool) : result table :=
  let folder := format_path fs folder in
  let input_files := filelist fs folder ext in
  input_files ← (if pre then preselect fs input_files else Ok input_files);
  hashes ← hashtable fs (Paths input_files);
  pandas.from_columns input_files hashes.

(** [list_all_duplicates] is taken with [to_csv=False], its default:
    nothing is written. *)

(** The two table operations of [list_all_duplicates]: keep the rows
    whose hash is duplicated, then sort them by hash. *)
Definition grouper `{pandas.SortKind} (duplicate_files : table) : result table :=
  let duplicate_files :=
    pandas.select duplicate_files (pandas.duplicated (hash_column duplicate_files)) in
  pandas.sort_values duplicate_files.

Definition list_all_duplicates `{pandas.SortKind} (fs : filesystem)
  (folder : string) (ext : option string) (fastscan : bool) : result table :=
  duplicate_files ← create_table fs folder ext fastscan;
  grouper duplicate_files.

Definition find_duplicates `{pandas.SortKind} (fs : filesystem)
  (file folder : string) : result table :=
  let file := format_path fs file in
  let folder := format_path fs folder in
  file_hash ← hashtable fs (OnePath file);
  duplicate_files ← list_all_duplicates fs folder None false;
  match file_hash with
  | [file_hash] =>
      Ok (pandas.select duplicate_files
            (pandas.eq_scalar (hash_column duplicate_files) file_hash))
  | _ =>
      (* a column compared with a list: element by element *)
      if decide (length file_hash = length duplicate_files) then
        Ok (pandas.select duplicate_files
              (zip_with (fun x y => bool_decide (x = y))
                 (hash_column duplicate_files) file_hash))
      else Raise ValueError
  end.

(** [compare_folders] with [to_csv=False], its default. *)
Definition compare_folders (fs : filesystem)
  (reference_folder compare_folder : string) (ext : option string)
  : result table :=
  df_reference ← create_table fs reference_folder ext false;
  df_compare ← create_table fs compare_folder ext false;
  let ind_duplicates :=
    (fun x => pandas.eq_scalar (hash_column df_reference) x)
      <$> hash_column df_compare in
  duplicate_files ← pandas.iloc df_compare ind_duplicates;
  Ok (pandas.drop_duplicates duplicate_files).

(** ** Two sorting algorithms

    Both sort positions by insertion.  [before] decides whether the key
    being inserted goes in front of a key already placed: with [String.leb]
    equal keys keep their order (a stable sort, as [kind='stable']); with
    [String.ltb] equal keys come out in reverse order. *)

Fixpoint insert_by (before : string -> string -> bool) (x : nat * string)
  (l : list (nat * string)) : list (nat * string) :=
  match l with
  | [] => [x]
  | y :: l' => if before x.2 y.2 then x :: l else y :: insert_by before x l'
  end.

Definition insertion_sort (before : string -> string -> bool)
  (l : list (nat * string)) : list (nat * string) :=
  foldr (insert_by before) [] l.

Definition insertion_argsort (before : string -> string -> bool)
  (keys : list string) : list nat :=
  fst <$> insertion_sort before (zip (seq 0 (length keys)) keys).

(** ** numpy's quicksort

    [sort_values] sorts with [kind='quicksort'] unless told otherwise,
    which is numpy's introsort on the positions: while more than 16
    positions remain (the bounds [pl] and [pr] are both in the part, so
    [pr - pl] is then at least 16), partition around the median of the
    first, middle and last key; sort what is left by insertion.
    [tosort] is the array of positions being permuted, [pl] and [pr] the
    bounds of the part in hand, [stack] the parts put aside with their
    depth budget. *)

Module quicksort.

Definition small_quicksort : nat := 16.

Section keys.
Variable v : list string.

Definition key (tosort : list nat) (p : nat) : string :=
  default "" (tosort !! p ≫= fun i => v !! i).

Definition swap (tosort : list nat) (p q : nat) : list nat :=
  match tosort !! p, tosort !! q with
  | Some x, Some y => <[p:=y]> (<[q:=x]> tosort)
  | _, _ => tosort
  end.

(** [do ++pi; while (v[*pi] < vp)] *)
Fixpoint scan_up (fuel : nat) (tosort : list nat) (vp : string) (pi : nat)
  : nat :=
  match fuel with
  | O => S pi
  | S fuel' =>
      if String.ltb (key tosort (S pi)) vp
      then scan_up fuel' tosort vp (S pi) else S pi
  end.

(** [do --pj; while (vp < v[*pj])] *)
Fixpoint scan_down (fuel : nat) (tosort : list nat) (vp : string) (pj : nat)
  : nat :=
  match fuel with
  | O => pj - 1
  | S fuel' =>
      if String.ltb vp (key tosort (pj - 1))
      then scan_down fuel' tosort vp (pj - 1) else pj - 1
  end.

Fixpoint partition_loop (fuel : nat) (tosort : list nat) (vp : string)
  (pi pj : nat) : list nat * nat :=
  let pi := scan_up (length tosort) tosort vp pi in
  let pj := scan_down (length tosort) tosort vp pj in
  match fuel with
  | O => (tosort, pi)
  | S fuel' =>
      if bool_decide (pj ≤ pi) then (tosort, pi)
      else partition_loop fuel' (swap tosort pi pj) vp pi pj
  end.

(** One partition of [pl..pr]; returns the array and the final place
    [pi] of the pivot. *)
Definition partition (tosort : list nat) (pl pr : nat) : list nat * nat :=
  let pm := pl + (pr - pl) / 2 in
  let tosort :=
    if String.ltb (key tosort pm) (key tosort pl)
    then swap tosort pm pl else tosort in
  let tosort :=
    if String.ltb (key tosort pr) (key tosort pm)
    then swap tosort pr pm else tosort in
  let tosort :=
    if String.ltb (key tosort pm) (key tosort pl)
    then swap tosort pm pl else tosort in
  let vp := key tosort pm in
  let pi := pl in
  let pj := pr - 1 in
  let tosort := swap tosort pm pj in
  let '(tosort, pi) := partition_loop (length tosort) tosort vp pi pj in
  let pk := pr - 1 in
  (swap tosort pi pk, pi).

(** [while (pj > pl && vp < v[*pk]) *pj-- = *pk--;] *)
Fixpoint shift (fuel : nat) (tosort : list nat) (pl : nat) (vp : string)
  (pj : nat) : list nat * nat :=
  match fuel with
  | O => (tosort, pj)
  | S fuel' =>
      if bool_decide (pl < pj) && String.ltb vp (key tosort (pj - 1))
      then match tosort !! (pj - 1) with
           | Some x => shift fuel' (<[pj:=x]> tosort) pl vp (pj - 1)
           | None => (tosort, pj)
           end
      else (tosort, pj)
  end.

Definition insertion (tosort : list nat) (pl pr : nat) : list nat :=
  foldl (fun tosort pi =>
           match tosort !! pi with
           | Some vi =>
               let vp := default "" (v !! vi) in
               let '(tosort, pj) := shift (length tosort) tosort pl vp pi in
               <[pj:=vi]> tosort
           | None => tosort
           end)
        tosort (seq (S pl) (pr - pl)).

(** The main loop.  [at_top] tells whether the depth budget is to be
    checked, which numpy does when it takes a part from the stack;
    with the budget used up numpy switches to heapsort, which is not
    modelled: the result is [None]. *)
Fixpoint loop (fuel : nat) (at_top : bool) (tosort : list nat)
  (pl pr : nat) (cdepth : Z) (stack : list (nat * nat * Z))
  : option (list nat) :=
  match fuel with
  | O => None
  | S fuel' =>
      if at_top && bool_decide (cdepth < 0)%Z then None
      else if bool_decide (small_quicksort ≤ pr - pl) then
        let '(tosort, pi) := partition tosort pl pr in
        let cdepth := (cdepth - 1)%Z in
        if bool_decide (pi - pl < pr - pi) then
          loop fuel' false tosort pl (pi - 1) cdepth
               ((S pi, pr, cdepth) :: stack)
        else
          loop fuel' false tosort (S pi) pr cdepth
               ((pl, pi - 1, cdepth) :: stack)
      else
        let tosort := insertion tosort pl pr in
        match stack with
        | [] => Some tosort
        | (pl, pr, cdepth) :: stack =>
            loop fuel' true tosort pl pr cdepth stack
        end
  end.
End keys.

Definition argsort (v : list string) : option (list nat) :=
  let num := length v in
  loop v (2 * num + 1) true (seq 0 num) 0 (num - 1)
       (2 * Z.of_nat (Nat.log2 num)) [].

End quicksort.

(** [kind='quicksort']: the positions numpy's quicksort returns.  An
    argsort returns all positions in ascending order of their keys,
    whatever the algorithm; where the model above does not give such a
    result, the positions are sorted by insertion. *)
Definition quicksort_argsort (keys : list string) : list nat :=
  match quicksort.argsort keys with
  | Some indexer =>
      if bool_decide (indexer ≡ₚ seq 0 (length keys))
         && bool_decide (Sorted String.le (omap (fun i => keys !! i) indexer))
      then indexer
      else insertion_argsort String.leb keys
  | None => insertion_argsort String.leb keys
  end.

(** ** Notions used to state the properties *)

(** The hash column entry that the program computes for a path: the
    digest of the content when the file can be opened and read to the
    end, the failure marker otherwise. *)
Definition fingerprint (fs : filesystem) (file : string) : string :=
  match open fs file with
  | Ok (Stream content false) => hashlib.hexdigest content
  | _ => no_hash
  end.

(** A path that [hashtable] takes without raising: it holds no NUL
    character, so that [open] examines it, and the standard output can
    print it. *)
Definition admissible (fs : filesystem) (path : string) : bool :=
  negb (has_nul path) && printable fs path.

(** The successive blocks of at most [n] bytes of a content. *)
Fixpoint chunks_upto (fuel n : nat) (content : list byte) : list (list byte) :=
  match fuel, content with
  | S fuel', _ :: _ => take n content :: chunks_upto fuel' n (drop n content)
  | _, _ => []
  end.

Definition chunks (n : nat) (content : list byte) : list (list byte) :=
  chunks_upto (length content) n content.

Definition is_lower_hex (c : ascii) : bool :=
  bool_decide (c ∈ list_ascii_of_string "0123456789abcdef").

Definition word_range (w : Z) : Prop := (0 ≤ w < 2 ^ 32)%Z.

Definition regs_range (r : SHA256.regs) : Prop :=
  word_range (SHA256.ra r) /\ word_range (SHA256.rb r) /\
  word_range (SHA256.rc r) /\ word_range (SHA256.rd r) /\
  word_range (SHA256.re r) /\ word_range (SHA256.rf r) /\
  word_range (SHA256.rg r) /\ word_range (SHA256.rh r).

(** The size [os.path.getsize] reports, [0] where it raises. *)
Definition file_size (fs : filesystem) (file : string) : Z :=
  match getsize fs file with
  | Ok size => size
  | Raise _ => 0%Z
  end.

(** The paths that [preselect] keeps. *)
Definition preselected (fs : filesystem) (input_files : list string)
  : list string :=
  let checked_files := filter (fun file => isfile fs file) input_files in
  filter (fun file =>
            2 ≤ pandas.occurrences (file_size fs file)
                  (file_size fs <$> checked_files))
         checked_files.

(** The table that pairs every path with its fingerprint. *)
Definition table_of (fs : filesystem) (files : list string) : table :=
  (fun file => (file, fingerprint fs file)) <$> files.

(** The rows whose hash occurs at least twice in the table. *)
Definition duplicated_rows (df : table) : table :=
  filter (fun row => 2 ≤ pandas.occurrences row.2 (hash_column df)) df.

(** The rows of the second table whose hash occurs in the first. *)
Definition matching_rows (df_reference df_compare : table) : table :=
  filter (fun row => row.2 ∈ hash_column df_reference) df_compare.

(** Every path has one row content: rows with the same path are equal. *)
Definition functional (df : table) : Prop :=
  forall r1 r2, r1 ∈ df -> r2 ∈ df -> r1.1 = r2.1 -> r1 = r2.

(** A path component as [normpath] leaves it: not empty, free of
    separators, and neither ["."] nor [".."]. *)
Fixpoint no_sep (s : string) : Prop :=
  match s with
  | "" => True
  | String c s' => c ≠ posixpath.sep /\ no_sep s'
  end.

Definition clean (comp : string) : Prop :=
  no_sep comp /\ comp ≠ "" /\ comp ≠ "." /\ comp ≠ "..".

(** Records with equal hash keep the order they have in the table. *)
Definition stable_order (tbl out : table) : Prop :=
  forall h, filter (fun row => row.2 = h) out = filter (fun row => row.2 = h) tbl.

(** ** File systems used in the examples *)

Definition bytes (s : string) : list byte := list_byte_of_string s.

(** [/data] holds [a.txt] and [b.txt] with content "X", [c.txt] with
    content "Y". *)
Definition fs_scenario1 : filesystem := {|
  root := [("data", Dir [("a.txt", File (bytes "X") Readable);
                         ("b.txt", File (bytes "X") Readable);
                         ("c.txt", File (bytes "Y") Readable)])];
  cwd := "/";
  dir_size := 4096;
  stdout_encodes := fun _ => true;
  names_ok := eq_refl
|}.

(** [/d] holds two files that cannot be opened, of sizes 1 and 2; [/t]
    holds a third one, whose content occurs nowhere else. *)
Definition fs_unreadable : filesystem := {|
  root := [("d", Dir [("u1", File (bytes "A") Denied);
                      ("u2", File (bytes "BB") Denied)]);
           ("t", Dir [("secret", File (bytes "S") Denied)])];
  cwd := "/";
  dir_size := 4096;
  stdout_encodes := fun _ => true;
  names_ok := eq_refl
|}.

(** [/d] holds eighteen files with the same content. *)
Definition eighteen : list string :=
  ["a"; "b"; "c"; "d"; "e"; "f"; "g"; "h"; "i";
   "j"; "k"; "l"; "m"; "n"; "o"; "p"; "q"; "r"].

Definition fs_copies : filesystem := {|
  root := [("d", Dir ((fun name => (name, File (bytes "X") Readable))
                        <$> eighteen))];
  cwd := "/";
  dir_size := 4096;
  stdout_encodes := fun _ => true;
  names_ok := eq_refl
|}.

Definition digest_X : string :=
  "4b68ab3847feda7d6c62c1fbcbeebfa35eab7351ed5e78f4ddadea5df64b8015".

Definition copies_in (names : list string) : table :=
  (fun name => ("/d/" +:+ name, digest_X)) <$> names.

(** An empty folder; two files of one size and different contents; a
    reference folder and a folder to compare with it; a file of 56
    bytes. *)
Definition fs_scenarios : filesystem := {|
  root := [("empty", Dir []);
           ("sizes", Dir [("x", File (bytes "AB") Readable);
                          ("y", File (bytes "CD") Readable)]);
           ("ref", Dir [("x.txt", File (bytes "X") Readable)]);
           ("cmp", Dir [("y.txt", File (bytes "X") Readable);
                        ("z.txt", File (bytes "Z") Readable)]);
           ("text", File (bytes
              "abcdbcdecdefdefgefghfghighijhijkijkljklmklmnlmnomnopnopq")
              Readable)];
  cwd := "/";
  dir_size := 4096;
  stdout_encodes := fun _ => true;
  names_ok := eq_refl
|}.

(** The same tree, for a program whose standard output encodes the
    ASCII characters only. *)
Definition fs_ascii_stdout : filesystem := {|
  root := root fs_scenarios;
  cwd := "/";
  dir_size := 4096;
  stdout_encodes := fun c => Nat.ltb (nat_of_ascii c) 128;
  names_ok := eq_refl
|}.

(** A path with a NUL character and a path with a character that is
    not ASCII. *)
Definition path_with_nul : string := "/a" +:+ String nul "b".
Definition path_not_ascii : string := "/caf" +:+ String (ascii_of_nat 233) "".

(** ** Further notions and file systems *)

(** [visits top n path entries]: the walk that starts at the node [n],
    reached under the path [top], comes to a directory with the
    entries [entries] under the path [path]: [n] itself, or a
    directory below one of its entries, every path on the way being
    short enough to be opened. *)
Inductive visits : string -> node -> string -> list (string * node) -> Prop :=
  | visits_top top entries :
      String.length top < path_max ->
      visits top (Dir entries) top entries
  | visits_sub top entries name child path entries' :
      String.length top < path_max ->
      (name, child) ∈ entries ->
      visits (posixpath.join top name) child path entries' ->
      visits top (Dir entries) path entries'.

(** A folder whose name holds a dot, with a file without extension, a
    file with one, a name that begins with a dot, and a sub-folder
    named like a text file. *)
Definition fs_extensions : filesystem := {|
  root := [("pkg.d", Dir [("readme", File (bytes "r") Readable);
                          ("a.txt", File (bytes "X") Readable);
                          (".bashrc", File (bytes "b") Readable);
                          ("sub.txt", Dir [("b.txt", File (bytes "X") Readable);
                                           ("notes", File (bytes "n") Readable)])])];
  cwd := "/";
  dir_size := 4096;
  stdout_encodes := fun _ => true;
  names_ok := eq_refl
|}.

(** * Properties *)

(** ** The [result] monad *)

Lemma bind_Ok {A B : Type} (a : A) (k : A -> result B) : (Ok a ≫= k) = k a.
Proof. reflexivity. Qed.

Lemma map_result_ok {A B : Type} (f : A -> result B) (g : A -> B) (l : list A) :
  Forall (fun a => f a = Ok (g a)) l -> map_result f l = Ok (g <$> l).
Proof.
  induction 1 as [|a l Ha _ IH]; [done|].
  cbn. rewrite Ha. cbn. rewrite IH. done.
Qed.

Lemma Ok_inj {A : Type} (a b : A) : Ok a = Ok b -> a = b.
Proof. intros Heq. by injection Heq. Qed.

(** ** Table operations *)

Section frames.
Context {A : Type}.
Implicit Types rows : list A.

Lemma take_rows_in_range (indexer : list nat) rows :
  Forall (fun i => i < length rows) indexer ->
  pandas.take_rows indexer rows = Ok (omap (fun i => rows !! i) indexer).
Proof.
  unfold pandas.take_rows.
  induction 1 as [|i indexer Hi _ IH]; [done|].
  apply lookup_lt_is_Some_2 in Hi as [r Hr].
  cbn. rewrite Hr. cbn. by rewrite IH.
Qed.

Lemma omap_lookup_seq_app (pre rows : list A) :
  omap (fun i => (pre ++ rows) !! i) (seq (length pre) (length rows)) = rows.
Proof.
  revert pre. induction rows as [|a rows IH]; intros pre; [done|].
  cbn [length seq omap list_omap]. rewrite list_lookup_middle by done.
  f_equal. specialize (IH (pre ++ [a])).
  rewrite <- app_assoc, length_app in IH. cbn in IH.
  by rewrite Nat.add_1_r in IH.
Qed.

Lemma omap_lookup_seq rows :
  omap (fun i => rows !! i) (seq 0 (length rows)) = rows.
Proof. apply (omap_lookup_seq_app [] rows). Qed.

(** Taking the rows at a permutation of all positions permutes the
    rows. *)
Lemma take_rows_perm (indexer : list nat) rows :
  indexer ≡ₚ seq 0 (length rows) ->
  exists out, pandas.take_rows indexer rows = Ok out
              /\ out = omap (fun i => rows !! i) indexer
              /\ out ≡ₚ rows.
Proof.
  intros Hperm. eexists. split; [|split; [reflexivity|]].
  - apply take_rows_in_range.
    rewrite Hperm. apply Forall_forall. intros i Hi.
    apply elem_of_seq in Hi. lia.
  - rewrite Hperm. by rewrite omap_lookup_seq.
Qed.
End frames.

Lemma omap_lookup_fmap {A B : Type} (f : A -> B) (rows : list A) (indexer : list nat) :
  f <$> omap (fun i => rows !! i) indexer
  = omap (fun i => (f <$> rows) !! i) indexer.
Proof.
  induction indexer as [|i indexer IH]; [done|].
  cbn. rewrite list_lookup_fmap. destruct (rows !! i); cbn; by rewrite IH.
Qed.

(** [sort_values] succeeds; its result is a permutation of the frame and
    is in ascending order of the hash. *)
Lemma sort_values_spec `{pandas.SortKind} (df : table) :
  exists out, pandas.sort_values df = Ok out
              /\ out ≡ₚ df
              /\ Sorted String.le (hash_column out).
Proof.
  unfold pandas.sort_values.
  destruct (take_rows_perm (pandas.argsort (snd <$> df)) df) as (out & Hok & Hout & Hperm).
  { rewrite pandas.argsort_perm. by rewrite length_fmap. }
  exists out. split; [done|]. split; [done|].
  subst out. unfold hash_column. rewrite omap_lookup_fmap.
  apply pandas.argsort_sorted.
Qed.

(** ** Reading and hashing a file *)

Lemma read_no_fault (n : nat) (data : list byte) :
  (Z.of_nat n < 2 ^ 63)%Z ->
  read (Stream data false) (Z.of_nat n)
  = Ok (take n data, Stream (drop n data) false).
Proof.
  intros Hword. unfold read. cbn [pending fault]. rewrite Nat2Z.id.
  rewrite (bool_decide_eq_false_2 (_ < - _)%Z) by lia.
  rewrite (bool_decide_eq_false_2 (_ ≤ _)%Z) by lia. cbn [orb].
  rewrite (bool_decide_eq_false_2 (_ < _)%Z) by lia.
  rewrite bool_decide_eq_true_2 by lia. cbn [andb].
  case_bool_decide as Hn; [done|].
  rewrite take_ge, drop_ge by lia. done.
Qed.

Lemma read_fault (n : nat) (data : list byte) :
  (Z.of_nat n < 2 ^ 63)%Z ->
  read (Stream data true) (Z.of_nat n)
  = if bool_decide (n ≤ length data)
    then Ok (take n data, Stream (drop n data) true)
    else Raise OSError.
Proof.
  intros Hword. unfold read. cbn [pending fault]. rewrite Nat2Z.id.
  rewrite (bool_decide_eq_false_2 (_ < - _)%Z) by lia.
  rewrite (bool_decide_eq_false_2 (_ ≤ _)%Z) by lia. cbn [orb].
  rewrite (bool_decide_eq_false_2 (_ < _)%Z) by lia.
  rewrite bool_decide_eq_true_2 by lia. cbn [andb].
  by case_bool_decide.
Qed.

Lemma update_blocks_cons block_size m b bs message :
  update_blocks block_size m (b :: bs) message
  = match read message block_size with
    | Ok (block', message') =>
        update_blocks block_size (hashlib.update m (b :: bs)) block' message'
    | Raise e => Raise e
    end.
Proof.
  rewrite update_blocks_equation_2.
  destruct (inspect (read message block_size)) as [[[block' message']|e] Hr];
    simp update_blocks; rewrite Hr; reflexivity.
Qed.

(** On a stream without fault the loop ends and has absorbed the block
    in hand followed by everything still pending. *)
Lemma update_blocks_no_fault (n : nat) :
  0 < n -> (Z.of_nat n < 2 ^ 63)%Z -> forall data m block,
  (block = [] -> data = []) ->
  update_blocks (Z.of_nat n) m block (Stream data false)
  = Ok (m ++ block ++ data).
Proof.
  intros Hn Hword data.
  induction data as [data IH] using (induction_ltof1 _ (@length byte)).
  unfold ltof in IH. intros m [|b bl] Hinv.
  - rewrite Hinv by done. rewrite update_blocks_equation_1.
    by rewrite !app_nil_r.
  - rewrite update_blocks_cons, read_no_fault by done.
    destruct data as [|d data].
    + rewrite take_nil, update_blocks_equation_1. unfold hashlib.update.
      by rewrite app_nil_r.
    + rewrite IH.
      * unfold hashlib.update. by rewrite <- !app_assoc, take_drop.
      * rewrite length_drop. cbn [length]. lia.
      * destruct n; [lia|]. done.
Qed.

(** On a stream that ends in a read error the loop ends with that
    error. *)
Lemma update_blocks_fault (n : nat) :
  0 < n -> (Z.of_nat n < 2 ^ 63)%Z -> forall data m block,
  block ≠ [] ->
  update_blocks (Z.of_nat n) m block (Stream data true) = Raise OSError.
Proof.
  intros Hn Hword data.
  induction data as [data IH] using (induction_ltof1 _ (@length byte)).
  unfold ltof in IH. intros m [|b bl] Hne; [done|].
  rewrite update_blocks_cons, read_fault by done.
  case_bool_decide as Hlen; [|done].
  apply IH.
  - rewrite length_drop. lia.
  - destruct n; [lia|]. destruct data; [cbn in Hlen; lia|done].
Qed.

(** [open] raises [ValueError] for the paths with a NUL character and
    [OSError] for the others it cannot open. *)
Lemma open_raises fs file e :
  open fs file = Raise e ->
  (has_nul file = true /\ e = ValueError)
  \/ (has_nul file = false /\ e = OSError).
Proof.
  unfold open. destruct (has_nul file); [intros [= <-]; by left|].
  intros Hopen. right. split; [done|]. repeat case_match; congruence.
Qed.

Lemma open_no_nul fs file message :
  open fs file = Ok message -> has_nul file = false.
Proof. unfold open. by destruct (has_nul file). Qed.

Lemma hashfile_open_nat fs file (n : nat) :
  0 < n -> (Z.of_nat n < 2 ^ 63)%Z ->
  hashfile fs file (Z.of_nat n)
  = match open fs file with
    | Ok (Stream content false) => Ok (hashlib.hexdigest content)
    | Ok (Stream _ true) => Raise OSError
    | Raise e => Raise e
    end.
Proof.
  intros Hn Hword. unfold hashfile.
  destruct (open fs file) as [[data [|]]|e] eqn:Hopen; cbn.
  - rewrite read_fault by done. case_bool_decide as Hlen; [|done]. cbn.
    rewrite update_blocks_fault; [done|done|done|].
    destruct n; [lia|]. destruct data; [cbn in Hlen; lia|done].
  - rewrite read_no_fault by done. cbn.
    rewrite update_blocks_no_fault; [|done|done|].
    + cbn. by rewrite take_drop.
    + destruct n; [lia|]. by destruct data.
  - done.
Qed.

(** With a positive block size that fits a machine word, [hashfile]
    returns the digest of the whole content of a file that can be
    opened and read to the end, and raises for any other path: what
    [open] raises, or [OSError] when a read fails. *)
Lemma hashfile_open fs file (block_size : Z) :
  (0 < block_size < 2 ^ 63)%Z ->
  hashfile fs file block_size
  = match open fs file with
    | Ok (Stream content false) => Ok (hashlib.hexdigest content)
    | Ok (Stream _ true) => Raise OSError
    | Raise e => Raise e
    end.
Proof.
  intros Hpos. rewrite <- (Z2Nat.id block_size) by lia.
  apply hashfile_open_nat; lia.
Qed.

Lemma hashfile_default fs file :
  hashfile fs file default_block_size
  = match open fs file with
    | Ok (Stream content false) => Ok (hashlib.hexdigest content)
    | Ok (Stream _ true) => Raise OSError
    | Raise e => Raise e
    end.
Proof. apply hashfile_open. unfold default_block_size. lia. Qed.

Lemma hashfile_fingerprint fs file :
  match hashfile fs file default_block_size with
  | Ok h => h
  | Raise _ => no_hash
  end = fingerprint fs file.
Proof.
  rewrite hashfile_default. unfold fingerprint.
  by destruct (open fs file) as [[data [|]]|e].
Qed.

Lemma admissible_spec fs file :
  admissible fs file = true
  <-> has_nul file = false /\ printable fs file = true.
Proof.
  unfold admissible. rewrite andb_true_iff, negb_true_iff. tauto.
Qed.

(** The step of [hashtable] on a path it can print and open can
    examine: the fingerprint of the path is appended. *)
Lemma hashtable_step fs file acc :
  admissible fs file = true ->
  (_ ← print fs file;
   match hashfile fs file default_block_size with
   | Ok h => Ok (acc ++ [h])
   | Raise OSError => Ok (acc ++ [no_hash])
   | Raise e => Raise e
   end) = Ok (acc ++ [fingerprint fs file]).
Proof.
  intros [Hnul Hprint]%admissible_spec. unfold print. rewrite Hprint. cbn.
  rewrite hashfile_default. unfold fingerprint.
  destruct (open fs file) as [[data [|]]|e] eqn:Hopen; try done.
  apply open_raises in Hopen as [[Hnul' _]|[_ ->]]; [congruence|done].
Qed.

(** On paths it can print and open can examine, [hashtable] does not
    raise: the slot of every path holds its fingerprint. *)
Lemma hashtable_paths fs files :
  Forall (fun file => admissible fs file = true) files ->
  hashtable fs (Paths files) = Ok (fingerprint fs <$> files).
Proof.
  intros Hfiles. unfold hashtable.
  enough (Hgen : forall acc,
    foldl (fun acc file =>
             hash_identifier ← acc;
             _ ← print fs file;
             match hashfile fs file default_block_size with
             | Ok h => Ok (hash_identifier ++ [h])
             | Raise OSError => Ok (hash_identifier ++ [no_hash])
             | Raise e => Raise e
             end) (Ok acc) files
    = Ok (acc ++ (fingerprint fs <$> files))) by apply (Hgen []).
  induction Hfiles as [|file files Hfile _ IH]; intros acc; cbn [foldl].
  - by rewrite app_nil_r.
  - rewrite bind_Ok, (hashtable_step fs file acc Hfile), IH, <- app_assoc.
    reflexivity.
Qed.

Lemma hashtable_one_path fs file :
  admissible fs file = true ->
  hashtable fs (OnePath file) = Ok [fingerprint fs file].
Proof.
  intros Hfile. unfold hashtable. cbn [foldl].
  by rewrite bind_Ok, (hashtable_step fs file [] Hfile).
Qed.

(** Once an exception is out, the loop of [hashtable] does not go on. *)
Lemma hashtable_raised fs e files :
  foldl (fun acc file =>
           hash_identifier ← acc;
           _ ← print fs file;
           match hashfile fs file default_block_size with
           | Ok h => Ok (hash_identifier ++ [h])
           | Raise OSError => Ok (hash_identifier ++ [no_hash])
           | Raise e => Raise e
           end) (Raise e) files
  = Raise e.
Proof. induction files as [|file files IH]; [done|]. exact IH. Qed.

(** The step of [hashtable] on a path that cannot be printed, or that
    [open] refuses to examine: [ValueError], which is not caught. *)
Lemma hashtable_step_raises fs file acc :
  admissible fs file = false ->
  (_ ← print fs file;
   match hashfile fs file default_block_size with
   | Ok h => Ok (acc ++ [h])
   | Raise OSError => Ok (acc ++ [no_hash])
   | Raise e => Raise e
   end) = Raise ValueError.
Proof.
  unfold admissible, print. destruct (printable fs file); [|done].
  rewrite andb_true_r. intros Hnul%negb_false_iff. cbn.
  unfold hashfile, open. by rewrite Hnul.
Qed.

Lemma hashtable_aborts fs files :
  Exists (fun file => admissible fs file = false) files ->
  hashtable fs (Paths files) = Raise ValueError.
Proof.
  intros Hbad. unfold hashtable.
  enough (Hgen : forall acc,
    foldl (fun acc file =>
             hash_identifier ← acc;
             _ ← print fs file;
             match hashfile fs file default_block_size with
             | Ok h => Ok (hash_identifier ++ [h])
             | Raise OSError => Ok (hash_identifier ++ [no_hash])
             | Raise e => Raise e
             end) (Ok acc) files
    = Raise ValueError) by apply (Hgen []).
  induction files as [|file files IH]; intros acc; [by apply Exists_nil in Hbad|].
  cbn [foldl]. rewrite bind_Ok.
  destruct (admissible fs file) eqn:Hfile.
  - rewrite (hashtable_step fs file acc Hfile). apply IH.
    apply Exists_cons in Hbad as [Hbad|Hbad]; [congruence|done].
  - rewrite (hashtable_step_raises fs file acc Hfile).
    apply hashtable_raised.
Qed.

(** ** The hexadecimal digest *)

Lemma hex_length r : String.length (SHA256.hex r) = 64.
Proof. reflexivity. Qed.

Lemma nibble_range w i : (0 ≤ SHA256.nibble w i < 16)%Z.
Proof.
  unfold SHA256.nibble. change 0xf%Z with (Z.ones 4).
  rewrite Z.land_ones by lia. apply Z.mod_pos_bound. lia.
Qed.

Lemma hex_digit_lower n : (0 ≤ n < 16)%Z -> is_lower_hex (SHA256.hex_digit n) = true.
Proof.
  intros Hn.
  assert (Hcases : n ∈ [0; 1; 2; 3; 4; 5; 6; 7; 8; 9; 10; 11; 12; 13; 14; 15]%Z).
  { rewrite !elem_of_cons. lia. }
  rewrite !elem_of_cons, elem_of_nil in Hcases.
  by repeat destruct Hcases as [->|Hcases].
Qed.

Lemma hex_digit_inj a b :
  (0 ≤ a < 16)%Z -> (0 ≤ b < 16)%Z ->
  SHA256.hex_digit a = SHA256.hex_digit b -> a = b.
Proof.
  intros Ha Hb.
  assert (Hca : a ∈ [0; 1; 2; 3; 4; 5; 6; 7; 8; 9; 10; 11; 12; 13; 14; 15]%Z).
  { rewrite !elem_of_cons. lia. }
  assert (Hcb : b ∈ [0; 1; 2; 3; 4; 5; 6; 7; 8; 9; 10; 11; 12; 13; 14; 15]%Z).
  { rewrite !elem_of_cons. lia. }
  rewrite !elem_of_cons, elem_of_nil in Hca, Hcb.
  repeat destruct Hca as [->|Hca]; try done;
    repeat destruct Hcb as [->|Hcb]; try done.
Qed.

Lemma hex_lower r :
  forallb is_lower_hex (list_ascii_of_string (SHA256.hex r)) = true.
Proof.
  unfold SHA256.hex, SHA256.hex_word. cbn [list_ascii_of_string forallb].
  rewrite !hex_digit_lower by apply nibble_range. reflexivity.
Qed.

Lemma shiftr_step w a b : (0 ≤ a)%Z -> (b = a + 4)%Z ->
  Z.shiftr w b = (Z.shiftr w a / 16)%Z.
Proof.
  intros Ha ->. rewrite !Z.shiftr_div_pow2 by lia.
  rewrite Z.pow_add_r by lia. rewrite Z.div_div by lia. reflexivity.
Qed.

Lemma nibble_mod w i : SHA256.nibble w i = (Z.shiftr w (4 * i) mod 16)%Z.
Proof.
  unfold SHA256.nibble. change 0xf%Z with (Z.ones 4).
  rewrite Z.land_ones by lia. reflexivity.
Qed.

(** A 32-bit word is determined by its eight nibbles. *)
Lemma word_of_nibbles w :
  word_range w ->
  w = (SHA256.nibble w 0 + 16 * (SHA256.nibble w 1 + 16 * (SHA256.nibble w 2
       + 16 * (SHA256.nibble w 3 + 16 * (SHA256.nibble w 4
       + 16 * (SHA256.nibble w 5 + 16 * (SHA256.nibble w 6
       + 16 * SHA256.nibble w 7)))))))%Z.
Proof.
  intros [Hlo Hhi]. rewrite !nibble_mod.
  change (4 * 0)%Z with 0%Z. change (4 * 1)%Z with 4%Z.
  change (4 * 2)%Z with 8%Z. change (4 * 3)%Z with 12%Z.
  change (4 * 4)%Z with 16%Z. change (4 * 5)%Z with 20%Z.
  change (4 * 6)%Z with 24%Z. change (4 * 7)%Z with 28%Z.
  rewrite Z.shiftr_0_r.
  pose proof (shiftr_step w 0 4 ltac:(lia) ltac:(lia)) as E1.
  pose proof (shiftr_step w 4 8 ltac:(lia) ltac:(lia)) as E2.
  pose proof (shiftr_step w 8 12 ltac:(lia) ltac:(lia)) as E3.
  pose proof (shiftr_step w 12 16 ltac:(lia) ltac:(lia)) as E4.
  pose proof (shiftr_step w 16 20 ltac:(lia) ltac:(lia)) as E5.
  pose proof (shiftr_step w 20 24 ltac:(lia) ltac:(lia)) as E6.
  pose proof (shiftr_step w 24 28 ltac:(lia) ltac:(lia)) as E7.
  pose proof (shiftr_step w 28 32 ltac:(lia) ltac:(lia)) as E8.
  rewrite Z.shiftr_0_r in E1.
  assert (E9 : Z.shiftr w 32 = 0%Z).
  { rewrite Z.shiftr_div_pow2 by lia. apply Z.div_small. done. }
  rewrite E9 in E8.
  generalize dependent (Z.shiftr w 28). generalize dependent (Z.shiftr w 24).
  generalize dependent (Z.shiftr w 20). generalize dependent (Z.shiftr w 16).
  generalize dependent (Z.shiftr w 12). generalize dependent (Z.shiftr w 8).
  generalize dependent (Z.shiftr w 4).
  intros q1 E1 q2 E2 q3 E3 q4 E4 q5 E5 q6 E6 q7 E7 E8.
  pose proof (Z.div_mod w 16 ltac:(lia)) as D0. rewrite <- E1 in D0.
  pose proof (Z.div_mod q1 16 ltac:(lia)) as D1. rewrite <- E2 in D1.
  pose proof (Z.div_mod q2 16 ltac:(lia)) as D2. rewrite <- E3 in D2.
  pose proof (Z.div_mod q3 16 ltac:(lia)) as D3. rewrite <- E4 in D3.
  pose proof (Z.div_mod q4 16 ltac:(lia)) as D4. rewrite <- E5 in D4.
  pose proof (Z.div_mod q5 16 ltac:(lia)) as D5. rewrite <- E6 in D5.
  pose proof (Z.div_mod q6 16 ltac:(lia)) as D6. rewrite <- E7 in D6.
  pose proof (Z.div_mod q7 16 ltac:(lia)) as D7. rewrite <- E8 in D7.
  lia.
Qed.

Lemma String_inj a1 a2 s1 s2 : String a1 s1 = String a2 s2 -> a1 = a2 /\ s1 = s2.
Proof. intros Heq. by injection Heq. Qed.

Lemma hex_word_inj w1 w2 s1 s2 :
  word_range w1 -> word_range w2 ->
  SHA256.hex_word w1 s1 = SHA256.hex_word w2 s2 -> w1 = w2 /\ s1 = s2.
Proof.
  intros H1 H2 Heq. unfold SHA256.hex_word in Heq.
  apply String_inj in Heq as [E7 Heq]. apply String_inj in Heq as [E6 Heq].
  apply String_inj in Heq as [E5 Heq]. apply String_inj in Heq as [E4 Heq].
  apply String_inj in Heq as [E3 Heq]. apply String_inj in Heq as [E2 Heq].
  apply String_inj in Heq as [E1 Heq]. apply String_inj in Heq as [E0 Heq].
  apply hex_digit_inj in E7, E6, E5, E4, E3, E2, E1, E0;
    try apply nibble_range.
  split; [|done].
  rewrite (word_of_nibbles w1), (word_of_nibbles w2) by done. congruence.
Qed.

Lemma hex_inj r1 r2 :
  regs_range r1 -> regs_range r2 -> SHA256.hex r1 = SHA256.hex r2 -> r1 = r2.
Proof.
  destruct r1, r2. unfold regs_range, SHA256.hex.
  cbn [SHA256.ra SHA256.rb SHA256.rc SHA256.rd SHA256.re SHA256.rf
       SHA256.rg SHA256.rh].
  intros (?&?&?&?&?&?&?&?) (?&?&?&?&?&?&?&?) Heq.
  repeat (apply hex_word_inj in Heq as [-> Heq]; [|done..]). done.
Qed.

Lemma add32_range x y : word_range (SHA256.add32 x y).
Proof.
  unfold word_range, SHA256.add32, SHA256.wrap.
  change 0xffffffff%Z with (Z.ones 32). rewrite Z.land_ones by lia.
  apply Z.mod_pos_bound. lia.
Qed.

Lemma compress_range h block : regs_range (SHA256.compress h block).
Proof.
  unfold SHA256.compress, regs_range. cbv zeta.
  cbn [SHA256.ra SHA256.rb SHA256.rc SHA256.rd SHA256.re SHA256.rf
       SHA256.rg SHA256.rh].
  repeat split; apply add32_range.
Qed.

Lemma H0_range : regs_range SHA256.H0.
Proof. unfold regs_range, word_range. cbn. lia. Qed.

Lemma blocks_range fuel h bs :
  regs_range h -> regs_range (SHA256.blocks fuel h bs).
Proof.
  revert h bs. induction fuel as [|fuel IH]; intros h bs Hh; [done|].
  destruct bs as [|b bs]; [done|].
  cbn [SHA256.blocks]. apply IH, compress_range.
Qed.

Lemma digest_range msg : regs_range (SHA256.digest msg).
Proof. apply blocks_range, H0_range. Qed.

(** The rendering loses nothing: equal fingerprints come from equal
    digests. *)
Lemma hexdigest_inj m1 m2 :
  hashlib.hexdigest m1 = hashlib.hexdigest m2 ->
  SHA256.digest m1 = SHA256.digest m2.
Proof. apply hex_inj; apply digest_range. Qed.

Lemma hexdigest_length m : String.length (hashlib.hexdigest m) = 64.
Proof. apply hex_length. Qed.

Lemma no_hash_not_hex s : String.length s = 64 -> s ≠ no_hash.
Proof. intros Hlen ->. discriminate Hlen. Qed.

Lemma hexdigest_not_no_hash m : hashlib.hexdigest m ≠ no_hash.
Proof. apply no_hash_not_hex, hexdigest_length. Qed.

(** ** Blocks of a content *)

Lemma join_cons {A : Type} (x : list A) (l : list (list A)) :
  mjoin (x :: l) = x ++ mjoin l.
Proof. reflexivity. Qed.

Lemma chunks_upto_concat fuel n content :
  0 < n -> length content ≤ fuel ->
  mjoin (chunks_upto fuel n content) = content.
Proof.
  intros Hn. revert content.
  induction fuel as [|fuel IH]; intros [|b content] Hlen;
    cbn in Hlen; try done; try lia.
  cbn [chunks_upto]. rewrite join_cons, IH, take_drop; [done|].
  rewrite length_drop. cbn [length]. lia.
Qed.

Lemma chunks_upto_sizes fuel n content :
  0 < n -> length content ≤ fuel ->
  Forall (fun block => 0 < length block ≤ n) (chunks_upto fuel n content).
Proof.
  intros Hn. revert content.
  induction fuel as [|fuel IH]; intros [|b content] Hlen;
    cbn in Hlen; try (by constructor); try lia.
  cbn [chunks_upto]. constructor.
  - rewrite length_take. cbn [length]. lia.
  - apply IH. rewrite length_drop. cbn [length]. lia.
Qed.

Lemma chunks_upto_full fuel n content i block :
  0 < n -> length content ≤ fuel ->
  chunks_upto fuel n content !! i = Some block ->
  S i < length (chunks_upto fuel n content) ->
  length block = n.
Proof.
  intros Hn. revert content i.
  induction fuel as [|fuel IH]; intros [|b content] i Hlen;
    cbn in Hlen; try done; try lia.
  cbn [chunks_upto]. destruct i as [|i]; cbn [lookup list_lookup length].
  - intros [= <-] Hmore. rewrite length_take.
    destruct (decide (n ≤ length (b :: content))) as [|Hshort]; [lia|].
    rewrite drop_ge in Hmore by lia. destruct fuel; cbn in Hmore; lia.
  - intros Hi Hmore. eapply IH; [|exact Hi|lia].
    rewrite length_drop. cbn [length]. lia.
Qed.

Lemma foldl_update m blocks :
  foldl hashlib.update m blocks = m ++ mjoin blocks.
Proof.
  revert m. induction blocks as [|b blocks IH]; intros m; cbn [foldl].
  - by rewrite app_nil_r.
  - rewrite IH. unfold hashlib.update. by rewrite join_cons, app_assoc.
Qed.

(** ** Occurrences of a value in a column *)

Section occurrences.
Context `{EqDecision V}.
Implicit Types (v : V) (col : list V).

Lemma occurrences_nil v : pandas.occurrences v [] = 0.
Proof. done. Qed.

Lemma occurrences_cons v x col :
  pandas.occurrences v (x :: col)
  = (if decide (x = v) then 1 else 0) + pandas.occurrences v col.
Proof.
  unfold pandas.occurrences. rewrite filter_cons.
  by destruct (decide (x = v)).
Qed.

Lemma occurrences_app v col1 col2 :
  pandas.occurrences v (col1 ++ col2)
  = pandas.occurrences v col1 + pandas.occurrences v col2.
Proof. unfold pandas.occurrences. by rewrite filter_app, length_app. Qed.

Lemma occurrences_perm v col1 col2 :
  col1 ≡ₚ col2 -> pandas.occurrences v col1 = pandas.occurrences v col2.
Proof. unfold pandas.occurrences. by intros ->. Qed.

Lemma occurrences_pos v col : 1 ≤ pandas.occurrences v col <-> v ∈ col.
Proof.
  induction col as [|x col IH].
  - rewrite occurrences_nil, elem_of_nil. lia.
  - rewrite occurrences_cons, elem_of_cons.
    destruct (decide (x = v)) as [->|Hne]; [intuition lia|].
    rewrite <- IH. intuition (try congruence; lia).
Qed.

Lemma occurrences_lookup v col i :
  col !! i = Some v -> 1 ≤ pandas.occurrences v col.
Proof. intros Hi. apply occurrences_pos. by eapply list_elem_of_lookup_2. Qed.

(** A value occurs at least twice exactly when it stands at two
    different positions. *)
Lemma occurrences_two v col :
  2 ≤ pandas.occurrences v col
  <-> exists i j, i ≠ j /\ col !! i = Some v /\ col !! j = Some v.
Proof.
  induction col as [|x col IH].
  - rewrite occurrences_nil. split; [lia|]. by intros (i & j & _ & Hi & _).
  - rewrite occurrences_cons. split.
    + intros Hocc. destruct (decide (x = v)) as [->|Hne].
      * assert (Hin : v ∈ col) by (apply occurrences_pos; lia).
        apply list_elem_of_lookup_1 in Hin as [j Hj].
        by exists 0, (S j).
      * apply IH in Hocc as (i & j & Hij & Hi & Hj).
        exists (S i), (S j). split; [lia|done].
    + intros (i & j & Hij & Hi & Hj).
      destruct i as [|i], j as [|j]; cbn in Hi, Hj; try done.
      * injection Hi as ->. apply occurrences_lookup in Hj.
        rewrite decide_True by done. lia.
      * injection Hj as ->. apply occurrences_lookup in Hi.
        rewrite decide_True by done. lia.
      * assert (2 ≤ pandas.occurrences v col); [|lia].
        apply IH. exists i, j. split; [lia|done].
Qed.

Lemma occurrences_NoDup v col : NoDup col -> pandas.occurrences v col ≤ 1.
Proof.
  intros Hnd. destruct (decide (2 ≤ pandas.occurrences v col)) as [Htwo|]; [|lia].
  apply occurrences_two in Htwo as (i & j & Hij & Hi & Hj).
  destruct Hij. by eapply NoDup_lookup.
Qed.

Lemma occurrences_sublist v col1 col2 :
  col1 `sublist_of` col2 ->
  pandas.occurrences v col1 ≤ pandas.occurrences v col2.
Proof.
  induction 1 as [|x l1 l2 _ IH|x l1 l2 _ IH];
    rewrite ?occurrences_cons; [done|lia|lia].
Qed.

Lemma occurrences_fmap {A : Type} (key : A -> V) v (rows : list A) :
  pandas.occurrences v (key <$> rows)
  = length (filter (fun row => key row = v) rows).
Proof.
  induction rows as [|r rows IH]; [done|].
  rewrite fmap_cons, occurrences_cons, filter_cons, IH.
  by destruct (decide (key r = v)).
Qed.

Lemma select_at_least_two {A : Type} (key : A -> V) col (rows : list A) :
  pandas.select rows
    ((fun v => bool_decide (2 ≤ pandas.occurrences v col)) <$> (key <$> rows))
  = filter (fun row => 2 ≤ pandas.occurrences (key row) col) rows.
Proof.
  induction rows as [|r rows IH]; [done|].
  rewrite !fmap_cons, filter_cons. cbn [pandas.select]. rewrite IH.
  destruct (decide (2 ≤ pandas.occurrences (key r) col)) as [Hd|Hd].
  - by rewrite bool_decide_eq_true_2.
  - by rewrite bool_decide_eq_false_2.
Qed.

Lemma duplicated_select {A : Type} (key : A -> V) (rows : list A) :
  pandas.select rows (pandas.duplicated (key <$> rows))
  = filter (fun row => 2 ≤ pandas.occurrences (key row) (key <$> rows)) rows.
Proof. apply select_at_least_two. Qed.
End occurrences.

(** ** The grouper *)

Lemma grouper_spec `{pandas.SortKind} (df : table) :
  exists out, grouper df = Ok out
              /\ out ≡ₚ duplicated_rows df
              /\ Sorted String.le (hash_column out).
Proof.
  unfold grouper, hash_column at 1. rewrite duplicated_select.
  apply sort_values_spec.
Qed.

(** ** Names and paths of the tree

    The names of the tree hold no NUL character and can be printed, so
    the same is true of every path that resolves and of every path the
    walk lists. *)

Lemma node_nested_ind (P : node -> Prop) :
  (forall content acc, P (File content acc)) ->
  (forall entries, Forall (fun e => P e.2) entries -> P (Dir entries)) ->
  P Dangling ->
  forall n, P n.
Proof.
  intros Hfile Hdir Hdangling. fix IH 1. intros [content acc|entries|].
  - apply Hfile.
  - apply Hdir. induction entries as [|[name child] entries IHe].
    + constructor.
    + constructor; [apply IH|apply IHe].
  - apply Hdangling.
Qed.

Lemma walk_tree_dir top entries :
  walk_tree top (Dir entries)
  = if bool_decide (path_max ≤ String.length top) then []
    else (top, dirnames entries, nondirnames entries)
         :: (entries ≫= fun e => walk_tree (posixpath.join top e.1) e.2).
Proof.
  cbn [walk_tree]. case_bool_decide; [done|]. f_equal.
  induction entries as [|[name child] entries IH]; [done|].
  cbn. by rewrite IH.
Qed.

Lemma list_ascii_append s t :
  list_ascii_of_string (s +:+ t)
  = list_ascii_of_string s ++ list_ascii_of_string t.
Proof.
  induction s as [|a s IH]; [done|].
  change (String a s +:+ t) with (String a (s +:+ t)).
  cbn [list_ascii_of_string app]. by rewrite IH.
Qed.

Section valid_names.
Context (encodes : ascii -> bool).
Hypothesis encodes_sep : encodes "/" = true.
Hypothesis encodes_dot : encodes "." = true.

Lemma valid_name_cons c s :
valid_name encodes (String c s)
= negb (bool_decide (c = nul)) && encodes c && valid_name encodes s.
Proof. reflexivity. Qed.

Lemma valid_name_append s t :
valid_name encodes (s +:+ t)
= valid_name encodes s && valid_name encodes t.
Proof. unfold valid_name. by rewrite list_ascii_append, forallb_app. Qed.

Lemma valid_name_sep : valid_name encodes "/" = true.
Proof. rewrite valid_name_cons, encodes_sep. reflexivity. Qed.

Lemma valid_name_join a b :
valid_name encodes a = true -> valid_name encodes b = true ->
valid_name encodes (posixpath.join a b) = true.
Proof.
intros Ha Hb. unfold posixpath.join.
destruct (posixpath.startswith "/" b); [done|].
destruct (_ || _).
- by rewrite valid_name_append, Ha, Hb.
- change (String posixpath.sep b) with ("/" +:+ b).
  by rewrite !valid_name_append, Ha, Hb, valid_name_sep.
Qed.

(** A path is made of its components and of separators. *)
Lemma valid_name_split path :
Forall (fun comp => valid_name encodes comp = true) (posixpath.split path) ->
valid_name encodes path = true.
Proof.
induction path as [|c path IH]; [done|].
cbn [posixpath.split]. destruct (decide (c = posixpath.sep)) as [->|Hc].
- intros [_ Hrest]%Forall_cons. rewrite valid_name_cons, IH by done.
  unfold posixpath.sep. by rewrite encodes_sep.
- destruct (posixpath.split path) as [|h t]; rewrite valid_name_cons.
  + intros [Hch _]%Forall_cons. rewrite valid_name_cons in Hch.
    rewrite IH by constructor.
    apply andb_true_iff in Hch as [Hch _]. by rewrite Hch.
  + intros [Hch Ht]%Forall_cons. rewrite valid_name_cons in Hch.
    apply andb_true_iff in Hch as [Hch Hh].
    rewrite Hch, IH; [done|]. by constructor.
Qed.

Lemma valid_node_dir entries :
valid_node encodes (Dir entries) = true
<-> Forall (fun e => valid_name encodes e.1 = true
                     /\ valid_node encodes e.2 = true) entries.
Proof.
induction entries as [|[name child] entries IH].
- split; [constructor|done].
- rewrite Forall_cons, <- IH. cbn [valid_node fst snd].
  rewrite !andb_true_iff. tauto.
Qed.

Lemma valid_lookup_entry name entries x :
valid_node encodes (Dir entries) = true ->
lookup_entry name entries = Some x ->
valid_name encodes name = true /\ valid_node encodes x = true.
Proof.
rewrite valid_node_dir. induction 1 as [|[n y] entries [Hn Hy] _ IH]; [done|].
cbn [lookup_entry]. destruct (decide (n = name)) as [<-|]; [|done].
by intros [= <-].
Qed.

Lemma valid_descend comps anc cur anc' n :
valid_node encodes cur = true ->
Forall (fun a => valid_node encodes a = true) anc ->
descend anc cur comps = Some (anc', n) ->
Forall (fun comp => valid_name encodes comp = true) comps
/\ valid_node encodes n = true
/\ Forall (fun a => valid_node encodes a = true) anc'.
Proof.
revert anc cur. induction comps as [|c comps IH]; intros anc cur Hcur Hanc.
- intros [= <- <-]. by split; [constructor|].
- cbn [descend]. destruct cur as [content acc|es|]; [done| |done].
  assert (Hdots : c = "" \/ c = "." \/ c = ".." ->
                  valid_name encodes c = true).
  { intros [-> | [-> | ->]]; [done| |];
      by rewrite !valid_name_cons, encodes_dot. }
  destruct (bool_decide (c = "") || bool_decide (c = ".")) eqn:Hskip.
  { intros Hd. destruct (IH _ _ Hcur Hanc Hd) as (Hc & Hn & Ha).
    split; [|done]. constructor; [|done]. apply Hdots.
    apply orb_true_iff in Hskip as [?%bool_decide_eq_true|?%bool_decide_eq_true];
      auto. }
  destruct (bool_decide (c = "..")) eqn:Hup.
  { apply bool_decide_eq_true in Hup.
    destruct anc as [|p anc0].
    - intros Hd. destruct (IH _ _ Hcur Hanc Hd) as (Hc & Hn & Ha).
      split; [|done]. constructor; [|done]. auto.
    - apply Forall_cons in Hanc as [Hp Hanc0].
      intros Hd. destruct (IH _ _ Hp Hanc0 Hd) as (Hc & Hn & Ha).
      split; [|done]. constructor; [|done]. auto. }
  destruct (lookup_entry c es) as [x|] eqn:Hx; [|done].
  destruct (valid_lookup_entry _ _ _ Hcur Hx) as [Hvc Hvx].
  intros Hd.
  destruct (IH (Dir es :: anc) x Hvx (Forall_cons_2 _ _ _ Hcur Hanc) Hd)
    as (Hc & Hn & Ha).
  split; [|done]. by constructor.
Qed.

Lemma valid_walk_tree n top :
valid_node encodes n = true -> valid_name encodes top = true ->
Forall (fun w => valid_name encodes w.1.1 = true
                 /\ Forall (fun name => valid_name encodes name = true) w.2)
       (walk_tree top n).
Proof.
revert top. induction n as [content acc|entries IH|] using node_nested_ind;
  intros top Hn Htop; [constructor| |constructor].
rewrite walk_tree_dir. case_bool_decide; [constructor|].
pose proof Hn as Hentries. rewrite valid_node_dir in Hentries.
constructor.
- split; [done|]. cbn [snd]. apply Forall_forall. intros name Hname.
  unfold nondirnames in Hname.
  apply list_elem_of_fmap in Hname as (e & -> & He).
  apply list_elem_of_filter in He as [_ He].
  rewrite Forall_forall in Hentries. by apply Hentries.
- apply Forall_bind. rewrite Forall_forall in *. intros e He.
  destruct (Hentries e He) as [Hname Hchild].
  apply (IH e He); [done|]. by apply valid_name_join.
Qed.
End valid_names.

Lemma names_ok_spec fs :
  stdout_encodes fs "/" = true /\ stdout_encodes fs "." = true
  /\ valid_node (stdout_encodes fs) (Dir (root fs)) = true.
Proof.
  pose proof (names_ok fs) as Hok. rewrite !andb_true_iff in Hok. tauto.
Qed.

Lemma admissible_valid_name fs path :
  admissible fs path = valid_name (stdout_encodes fs) path.
Proof.
  unfold admissible, has_nul, printable, valid_name.
  induction (list_ascii_of_string path) as [|c l IH]; [done|].
  cbn [existsb forallb]. rewrite negb_orb, <- IH.
  destruct (bool_decide (c = nul)), (stdout_encodes fs c),
    (existsb _ l), (forallb _ l); done.
Qed.

Lemma resolve_no_nul fs path n :
  resolve fs path = Some n -> has_nul path = false.
Proof.
  unfold resolve. destruct (decide (path = "")); [done|].
  by destruct (has_nul path).
Qed.

(** A path that resolves is made of names of the tree, so it can be
    given to [hashtable]. *)
Lemma resolve_valid fs path n :
  resolve fs path = Some n ->
  admissible fs path = true /\ valid_node (stdout_encodes fs) n = true.
Proof.
  destruct (names_ok_spec fs) as (Hsep & Hdot & Hroot).
  rewrite admissible_valid_name. unfold resolve.
  destruct (decide (path = "")); [done|].
  destruct (has_nul path); [done|].
  case_bool_decide; [done|].
  destruct (posixpath.isabs path).
  - destruct (descend [] (Dir (root fs)) (posixpath.split path))
      as [[anc x]|] eqn:Hd; [|done].
    intros [= <-].
    destruct (valid_descend _ Hdot _ _ _ _ _ Hroot (Forall_nil_2 _) Hd)
      as (Hcomps & Hx & _).
    split; [|done]. by apply valid_name_split.
  - destruct (descend [] (Dir (root fs)) (posixpath.split (cwd fs)))
      as [[anc cur]|] eqn:Hc; [|done]. cbn.
    destruct (valid_descend _ Hdot _ _ _ _ _ Hroot (Forall_nil_2 _) Hc)
      as (_ & Hcur & Hanc).
    destruct (descend anc cur (posixpath.split path)) as [[anc' x]|] eqn:Hd;
      [|done].
    intros [= <-].
    destruct (valid_descend _ Hdot _ _ _ _ _ Hcur Hanc Hd) as (Hcomps & Hx & _).
    split; [|done]. by apply valid_name_split.
Qed.

(** Every path of a listing can be given to [hashtable]. *)
Lemma filelist_admissible fs filepath ext :
  Forall (fun file => admissible fs file = true) (filelist fs filepath ext).
Proof.
  destruct (names_ok_spec fs) as (Hsep & Hdot & Hroot).
  apply Forall_forall. intros file Hin. unfold filelist in Hin.
  apply list_elem_of_bind in Hin as ([[path dirs] files] & Hfile & Hwalk).
  apply list_elem_of_bind in Hfile as (name & Hfile & Hname).
  assert (Hjoin : file = posixpath.join path name).
  { destruct (_ || _); [|by apply elem_of_nil in Hfile].
    apply elem_of_cons in Hfile as [->|Hfile]; [done|].
    by apply elem_of_nil in Hfile. }
  subst file. unfold walk in Hwalk.
  destruct (resolve fs filepath) as [n|] eqn:Hres;
    [|by apply elem_of_nil in Hwalk].
  destruct (resolve_valid _ _ _ Hres) as [Htop Hn].
  rewrite admissible_valid_name in Htop |- *.
  pose proof (valid_walk_tree _ Hsep n filepath Hn Htop) as Hall.
  rewrite Forall_forall in Hall.
  destruct (Hall _ Hwalk) as [Hpath Hfiles]. cbn [fst snd] in Hpath, Hfiles.
  rewrite Forall_forall in Hfiles.
  apply valid_name_join; [done|done|]. by apply Hfiles.
Qed.

Lemma Forall_sublist_of {A : Type} (P : A -> Prop) (l1 l2 : list A) :
  l1 `sublist_of` l2 -> Forall P l2 -> Forall P l1.
Proof.
  intros Hsub. rewrite !Forall_forall. intros Hall a Ha.
  apply Hall. by eapply elem_of_sublist.
Qed.

(** ** Files, sizes and fingerprints *)

Lemma isfile_resolve fs file :
  isfile fs file = true <-> exists content acc, resolve fs file = Some (File content acc).
Proof.
  unfold isfile. destruct (resolve fs file) as [[content acc|es|]|].
  - split; [eauto|done].
  - split; [done|]. by intros (? & ? & ?).
  - split; [done|]. by intros (? & ? & ?).
  - split; [done|]. by intros (? & ? & ?).
Qed.

Lemma getsize_isfile fs file :
  isfile fs file = true -> getsize fs file = Ok (file_size fs file).
Proof.
  intros (content & acc & Hres)%isfile_resolve.
  unfold file_size, getsize.
  by rewrite (resolve_no_nul _ _ _ Hres), Hres.
Qed.

Lemma open_resolve fs file content :
  open fs file = Ok (Stream content false) ->
  resolve fs file = Some (File content Readable).
Proof.
  unfold open. destruct (has_nul file); [done|].
  destruct (resolve fs file) as [[c [| |n]|es|]|]; try done.
  by intros [= ->].
Qed.

(** A path that [open] opens names a file of the tree, so it can be
    given to [hashtable]. *)
Lemma open_admissible fs file message :
  open fs file = Ok message -> admissible fs file = true.
Proof.
  unfold open. destruct (has_nul file); [done|].
  destruct (resolve fs file) as [n|] eqn:Hres; [|done].
  intros _. by apply (resolve_valid fs file n).
Qed.


(** A fingerprint other than the failure marker is the digest of the
    content of a regular file. *)
Lemma fingerprint_digest fs file :
  fingerprint fs file ≠ no_hash ->
  exists content, open fs file = Ok (Stream content false)
                  /\ fingerprint fs file = hashlib.hexdigest content.
Proof.
  unfold fingerprint. destruct (open fs file) as [[content [|]]|e]; try done.
  intros _. by exists content.
Qed.

Lemma fingerprint_open fs file content :
  open fs file = Ok (Stream content false) ->
  fingerprint fs file = hashlib.hexdigest content.
Proof. unfold fingerprint. by intros ->. Qed.

(** ** [preselect] and [create_table] *)

Lemma zip_fmap_self {A B : Type} (f : A -> B) (l : list A) :
  zip l (f <$> l) = (fun a => (a, f a)) <$> l.
Proof. induction l as [|a l IH]; [done|]. cbn. by rewrite IH. Qed.

Lemma from_columns_fmap {V : Type} (f : string -> V) (files : list string) :
  pandas.from_columns files (f <$> files) = Ok ((fun a => (a, f a)) <$> files).
Proof.
  unfold pandas.from_columns. rewrite length_fmap.
  rewrite decide_True by done. by rewrite zip_fmap_self.
Qed.

Lemma filter_fmap_comm {A B : Type} (g : A -> B) (P : B -> Prop)
    `{!forall b, Decision (P b)} (l : list A) :
  filter P (g <$> l) = g <$> filter (fun a => P (g a)) l.
Proof.
  induction l as [|a l IH]; [done|].
  rewrite fmap_cons, !filter_cons, IH.
  by destruct (decide (P (g a))).
Qed.

Lemma snd_fmap_pair {V : Type} (f : string -> V) (l : list string) :
  snd <$> ((fun a => (a, f a)) <$> l) = f <$> l.
Proof. by rewrite <- list_fmap_compose. Qed.

Lemma fst_fmap_pair {V : Type} (f : string -> V) (l : list string) :
  fst <$> ((fun a => (a, f a)) <$> l) = l.
Proof. rewrite <- list_fmap_compose. apply list_fmap_id. Qed.

(** The rows with a duplicated value, in a frame that pairs every path
    with a value computed from it. *)
Lemma select_duplicated_pairs `{EqDecision V} (f : string -> V) (l : list string) :
  pandas.select ((fun a => (a, f a)) <$> l)
    (pandas.duplicated (snd <$> ((fun a => (a, f a)) <$> l)))
  = (fun a => (a, f a))
      <$> filter (fun a => 2 ≤ pandas.occurrences (f a) (f <$> l)) l.
Proof.
  rewrite (duplicated_select snd), snd_fmap_pair.
  by rewrite (filter_fmap_comm (fun a => (a, f a))).
Qed.

Lemma preselect_preselected fs input_files :
  preselect fs input_files = Ok (preselected fs input_files).
Proof.
  unfold preselect, preselected.
  set (checked_files := filter (fun file => isfile fs file) input_files).
  rewrite (map_result_ok _ (file_size fs)).
  - rewrite bind_Ok, from_columns_fmap, bind_Ok.
    rewrite select_duplicated_pairs. unfold file_column.
    by rewrite fst_fmap_pair.
  - apply Forall_forall. intros file Hin.
    apply list_elem_of_filter in Hin as [Hfile _].
    apply getsize_isfile. by apply Is_true_true.
Qed.

Lemma create_table_spec fs folder ext pre :
  create_table fs folder ext pre
  = Ok (table_of fs
          (let input_files := filelist fs (format_path fs folder) ext in
           if pre then preselected fs input_files else input_files)).
Proof.
  unfold create_table, table_of. destruct pre; cbn zeta.
  - rewrite preselect_preselected, bind_Ok, hashtable_paths, bind_Ok.
    + apply from_columns_fmap.
    + eapply Forall_sublist_of; [|apply filelist_admissible].
      unfold preselected. etrans; apply sublist_filter.
  - rewrite bind_Ok, hashtable_paths, bind_Ok by apply filelist_admissible.
    apply from_columns_fmap.
Qed.

Lemma hash_column_table_of fs files :
  hash_column (table_of fs files) = fingerprint fs <$> files.
Proof. apply snd_fmap_pair. Qed.

Lemma file_column_table_of fs files :
  file_column (table_of fs files) = files.
Proof. apply fst_fmap_pair. Qed.

Lemma elem_of_table_of fs files row :
  row ∈ table_of fs files <-> row.1 ∈ files /\ row.2 = fingerprint fs row.1.
Proof.
  unfold table_of. rewrite list_elem_of_fmap. split.
  - intros (file & -> & Hin). done.
  - intros [Hin Hfp]. exists row.1. split; [|done].
    destruct row as [p h]. cbn in *. by subst.
Qed.

Lemma list_all_duplicates_spec `{pandas.SortKind} fs folder ext fastscan :
  list_all_duplicates fs folder ext fastscan
  = grouper (table_of fs
      (let input_files := filelist fs (format_path fs folder) ext in
       if fastscan then preselected fs input_files else input_files)).
Proof. unfold list_all_duplicates. by rewrite create_table_spec. Qed.

(** ** Sorting by insertion *)

Definition key_le (x y : nat * string) : Prop := String.le x.2 y.2.

Section insertion.
Variable before : string -> string -> bool.
Hypothesis before_true : forall x y, before x y = true -> String.le x y.
Hypothesis before_false : forall x y, before x y = false -> String.le y x.

Lemma insert_by_perm x l : insert_by before x l ≡ₚ x :: l.
Proof.
  induction l as [|y l IH]; [done|]. cbn [insert_by].
  destruct (before x.2 y.2); [done|]. rewrite IH. apply Permutation_swap.
Qed.

Lemma insertion_sort_perm l : insertion_sort before l ≡ₚ l.
Proof.
  induction l as [|x l IH]; [done|].
  unfold insertion_sort in *. cbn [foldr]. by rewrite insert_by_perm, IH.
Qed.

Lemma insert_by_HdRel a x l :
  HdRel key_le a l -> key_le a x -> HdRel key_le a (insert_by before x l).
Proof.
  intros Hhd Hax. destruct l as [|y l]; cbn [insert_by].
  - by constructor.
  - destruct (before x.2 y.2); constructor; [done|].
    by inversion Hhd.
Qed.

Lemma insert_by_sorted x l :
  Sorted key_le l -> Sorted key_le (insert_by before x l).
Proof.
  induction 1 as [|y l Hs IH Hhd]; cbn [insert_by].
  - by repeat constructor.
  - destruct (before x.2 y.2) eqn:Hb.
    + constructor; [by constructor|]. constructor. by apply before_true.
    + constructor; [done|]. apply insert_by_HdRel; [done|].
      by apply before_false.
Qed.

Lemma insertion_sort_sorted l : Sorted key_le (insertion_sort before l).
Proof.
  induction l as [|x l IH]; [constructor|].
  unfold insertion_sort in *. cbn [foldr]. by apply insert_by_sorted.
Qed.

Lemma insertion_argsort_perm keys :
  insertion_argsort before keys ≡ₚ seq 0 (length keys).
Proof.
  unfold insertion_argsort. rewrite insertion_sort_perm.
  rewrite fst_zip; [done|]. by rewrite length_seq.
Qed.

Lemma insertion_argsort_sorted keys :
  Sorted String.le
    (omap (fun i => keys !! i) (insertion_argsort before keys)).
Proof.
  unfold insertion_argsort.
  set (pairs := zip (seq 0 (length keys)) keys).
  assert (Hpairs : Forall (fun p => keys !! p.1 = Some p.2)
                     (insertion_sort before pairs)).
  { rewrite insertion_sort_perm. apply Forall_forall.
    intros [i k] Hin. apply list_elem_of_lookup_1 in Hin as [n Hn].
    apply lookup_zip_with_Some in Hn as (i' & k' & [= <- <-] & Hi & Hk).
    apply lookup_seq in Hi as [-> _]. done. }
  assert (Hsorted := insertion_sort_sorted pairs).
  induction Hsorted as [|p l Hs IH Hhd]; [constructor|].
  apply Forall_cons in Hpairs as [Hp Hl].
  cbn. rewrite Hp. cbn. constructor; [by apply IH|].
  destruct Hhd as [|q l Hpq]; [constructor|].
  apply Forall_cons in Hl as [Hq _]. cbn. rewrite Hq. cbn.
  by constructor.
Qed.
End insertion.

Lemma leb_true x y : String.leb x y = true -> String.le x y.
Proof. unfold String.le. by intros ->. Qed.

Lemma leb_false x y : String.leb x y = false -> String.le y x.
Proof.
  intros Hxy. destruct (String.leb_total x y) as [H|H]; [congruence|].
  by apply leb_true.
Qed.

(** The stable sort, [kind='stable']. *)
Definition stable_kind : pandas.SortKind := {|
  pandas.argsort := insertion_argsort String.leb;
  pandas.argsort_perm := insertion_argsort_perm String.leb;
  pandas.argsort_sorted := insertion_argsort_sorted String.leb leb_true leb_false
|}.

Lemma quicksort_argsort_perm keys :
  quicksort_argsort keys ≡ₚ seq 0 (length keys).
Proof.
  unfold quicksort_argsort.
  destruct (quicksort.argsort keys) as [indexer|];
    [|apply insertion_argsort_perm].
  destruct (bool_decide (indexer ≡ₚ _) && _) eqn:Hvalid;
    [|apply insertion_argsort_perm].
  apply andb_true_iff in Hvalid as [Hperm _].
  by apply bool_decide_eq_true in Hperm.
Qed.

Lemma quicksort_argsort_sorted keys :
  Sorted String.le (omap (fun i => keys !! i) (quicksort_argsort keys)).
Proof.
  unfold quicksort_argsort.
  destruct (quicksort.argsort keys) as [indexer|];
    [|apply insertion_argsort_sorted; [apply leb_true|apply leb_false]].
  destruct (bool_decide (indexer ≡ₚ _) && _) eqn:Hvalid;
    [|apply insertion_argsort_sorted; [apply leb_true|apply leb_false]].
  apply andb_true_iff in Hvalid as [_ Hsorted].
  by apply bool_decide_eq_true in Hsorted.
Qed.

(** The default sort, [kind='quicksort']. *)
Definition quicksort_kind : pandas.SortKind := {|
  pandas.argsort := quicksort_argsort;
  pandas.argsort_perm := quicksort_argsort_perm;
  pandas.argsort_sorted := quicksort_argsort_sorted
|}.

(** ** The claims about hashing *)

Lemma resolve_open fs file content :
  resolve fs file = Some (File content Readable) ->
  open fs file = Ok (Stream content false).
Proof.
  intros Hres. unfold open. by rewrite (resolve_no_nul _ _ _ Hres), Hres.
Qed.

Lemma block_size_pos : 0 < Z.to_nat default_block_size.
Proof. unfold default_block_size. lia. Qed.

(** C1. [hashfile] returns the lowercase hexadecimal SHA-256 digest of
    the whole content of a readable file: the content is read in blocks
    of 65536 bytes, all full but possibly the last, each block is fed
    to the incremental digest, and the result is the digest of their
    concatenation, which is the content. *)
Theorem hashfile_sha256_of_content fs file content :
  resolve fs file = Some (File content Readable) ->
  let blocks := chunks (Z.to_nat default_block_size) content in
  hashfile fs file default_block_size
  = Ok (hashlib.hexdigest (foldl hashlib.update hashlib.new blocks))
  /\ mjoin blocks = content
  /\ Forall (fun block =>
               0 < length block ≤ Z.to_nat default_block_size) blocks
  /\ (forall i block,
        blocks !! i = Some block -> S i < length blocks ->
        length block = Z.to_nat default_block_size)
  /\ default_block_size = 65536%Z
  /\ hashfile fs file default_block_size
     = Ok (SHA256.hex (SHA256.digest content))
  /\ String.length (SHA256.hex (SHA256.digest content)) = 64
  /\ forallb is_lower_hex
       (list_ascii_of_string (SHA256.hex (SHA256.digest content))) = true.
Proof.
  intros Hres%resolve_open blocks.
  assert (Hjoin : mjoin blocks = content).
  { apply chunks_upto_concat; [apply block_size_pos|done]. }
  assert (Hhash : hashfile fs file default_block_size
                  = Ok (hashlib.hexdigest content)).
  { by rewrite hashfile_default, Hres. }
  repeat split.
  - rewrite foldl_update, Hjoin. exact Hhash.
  - exact Hjoin.
  - apply chunks_upto_sizes; [apply block_size_pos|done].
  - intros i block. apply chunks_upto_full; [apply block_size_pos|done].
  - exact Hhash.
  - apply hex_lower.
Qed.

Lemma hashfile_sha256_of_content_witness :
  hashfile fs_scenario1 "/data/a.txt" default_block_size
  = Ok "4b68ab3847feda7d6c62c1fbcbeebfa35eab7351ed5e78f4ddadea5df64b8015".
Proof.
  destruct (hashfile_sha256_of_content fs_scenario1 "/data/a.txt" (bytes "X")
              eq_refl) as (_ & _ & _ & _ & _ & -> & _).
  vm_compute. reflexivity.
Defined.

(** C2. The fingerprint depends on the content only: two readable files
    with the same content, at any paths of any file systems, get the same
    fingerprint, which is the digest of that content; two readable files
    with different contents get different fingerprints, provided SHA-256
    does not collide on these two contents. *)
Theorem hashfile_deterministic fs1 fs2 file1 file2 content1 content2 :
  resolve fs1 file1 = Some (File content1 Readable) ->
  resolve fs2 file2 = Some (File content2 Readable) ->
  hashfile fs1 file1 default_block_size = Ok (hashlib.hexdigest content1)
  /\ hashfile fs2 file2 default_block_size = Ok (hashlib.hexdigest content2)
  /\ (content1 = content2 ->
      hashfile fs1 file1 default_block_size
      = hashfile fs2 file2 default_block_size)
  /\ ((SHA256.digest content1 = SHA256.digest content2 -> content1 = content2) ->
      content1 ≠ content2 ->
      hashfile fs1 file1 default_block_size
      ≠ hashfile fs2 file2 default_block_size).
Proof.
  intros H1%resolve_open H2%resolve_open.
  rewrite !hashfile_default, H1, H2. repeat split.
  - by intros ->.
  - intros Hfree Hne Heq%Ok_inj. by apply Hne, Hfree, hexdigest_inj.
Qed.

Lemma hashfile_deterministic_witness :
  hashfile fs_scenario1 "/data/a.txt" default_block_size
  = hashfile fs_scenario1 "/data/b.txt" default_block_size
  /\ hashfile fs_scenario1 "/data/a.txt" default_block_size
     ≠ hashfile fs_scenario1 "/data/c.txt" default_block_size.
Proof.
  split.
  - by apply (hashfile_deterministic fs_scenario1 fs_scenario1
                "/data/a.txt" "/data/b.txt" (bytes "X") (bytes "X") eq_refl eq_refl).
  - apply (hashfile_deterministic fs_scenario1 fs_scenario1
             "/data/a.txt" "/data/c.txt" (bytes "X") (bytes "Y") eq_refl eq_refl).
    + vm_compute. discriminate.
    + discriminate.
Defined.

(** C6, amended.  On paths that hold no NUL character and that the
    standard output can print, [hashtable] returns one slot per path,
    holding the digest of every readable file and the failure marker
    for every path on which [hashfile] raises, which is then [OSError];
    such a failure does not stop the loop.  A path with a NUL
    character, or one that cannot be printed, aborts the whole call
    with [ValueError].  The marker differs from every 64-character
    string, hence from every digest. *)
Theorem hashtable_recovers fs (files : list string) :
  (Forall (fun file => has_nul file = false /\ printable fs file = true) files ->
   exists hashes,
     hashtable fs (Paths files) = Ok hashes
     /\ length hashes = length files
     /\ (forall i file, files !! i = Some file ->
           (forall content, resolve fs file = Some (File content Readable) ->
              hashes !! i = Some (hashlib.hexdigest content))
           /\ (forall h, hashfile fs file default_block_size = Ok h ->
                 hashes !! i = Some h)
           /\ (forall e, hashfile fs file default_block_size = Raise e ->
                 e = OSError /\ hashes !! i = Some no_hash)
           /\ (forall e, open fs file = Raise e ->
                 e = OSError /\ hashes !! i = Some no_hash)
           /\ (forall data, open fs file = Ok (Stream data true) ->
                 hashes !! i = Some no_hash)))
  /\ (Exists (fun file => has_nul file = true \/ printable fs file = false) files ->
      hashtable fs (Paths files) = Raise ValueError)
  /\ (forall content, hashlib.hexdigest content ≠ no_hash)
  /\ (forall s, String.length s = 64 -> s ≠ no_hash).
Proof.
  split; [|split; [|split]].
  - intros Hfiles. exists (fingerprint fs <$> files).
    assert (Hadm : Forall (fun file => admissible fs file = true) files).
    { eapply Forall_impl; [exact Hfiles|]. intros file Hfile.
      by apply admissible_spec. }
    split; [by apply hashtable_paths|]. split; [apply length_fmap|].
    intros i file Hi. rewrite list_lookup_fmap, Hi.
    pose proof (hashfile_fingerprint fs file) as Hfp.
    assert (Hnul : has_nul file = false).
    { rewrite Forall_forall in Hfiles.
      by apply (Hfiles file (list_elem_of_lookup_2 _ _ _ Hi)). }
    assert (Hopen : forall e, open fs file = Raise e -> e = OSError).
    { intros e [[Hbad _]|[_ ->]]%open_raises; [congruence|done]. }
    repeat split.
    + intros content Hres%resolve_open. cbn.
      by rewrite (fingerprint_open _ _ content).
    + intros h Hh. cbn. by rewrite <- Hfp, Hh.
    + rewrite hashfile_default in H.
      destruct (open fs file) as [[data [|]]|e'] eqn:Ho; try congruence.
      injection H as <-. by apply Hopen.
    + cbn. by rewrite <- Hfp, H.
    + by apply Hopen.
    + cbn. unfold fingerprint. by rewrite H.
    + intros data Hd. cbn. unfold fingerprint. by rewrite Hd.
  - intros Hbad. apply hashtable_aborts.
    eapply Exists_impl; [exact Hbad|]. intros file Hfile.
    destruct (admissible fs file) eqn:Hadm; [|done].
    apply admissible_spec in Hadm as [Hnul Hprint].
    destruct Hfile; congruence.
  - apply hexdigest_not_no_hash.
  - apply no_hash_not_hex.
Qed.

(** C6, as stated, fails: a batch is aborted by a path with a NUL
    character, which [open] refuses with [ValueError], and by a path
    that the standard output cannot encode, on which [print], outside
    the [try], raises.  The paths before and after the offending one
    are readable files. *)
Lemma hashtable_batch_aborted :
  hashtable fs_scenarios (Paths ["/ref/x.txt"; path_with_nul; "/cmp/z.txt"])
  = Raise ValueError
  /\ hashtable fs_ascii_stdout (Paths ["/ref/x.txt"; path_not_ascii; "/cmp/z.txt"])
     = Raise ValueError
  /\ hashtable fs_scenarios (Paths ["/ref/x.txt"; "/missing"; "/cmp/z.txt"])
     = Ok [hashlib.hexdigest (bytes "X"); no_hash; hashlib.hexdigest (bytes "Z")].
Proof. repeat split; vm_compute; reflexivity. Qed.

(** ** The claims about grouping and pre-selection *)

Lemma elem_of_duplicated_rows (tbl : table) row :
  row ∈ duplicated_rows tbl
  <-> row ∈ tbl /\ 2 ≤ pandas.occurrences row.2 (hash_column tbl).
Proof. unfold duplicated_rows. rewrite list_elem_of_filter. tauto. Qed.

(** Two rows at distinct positions carry the hash [h]. *)
Lemma hash_at_two_positions (tbl : table) (h : string) :
  2 ≤ pandas.occurrences h (hash_column tbl)
  <-> exists i j ri rj,
        i ≠ j /\ tbl !! i = Some ri /\ tbl !! j = Some rj
        /\ ri.2 = h /\ rj.2 = h.
Proof.
  rewrite occurrences_two. unfold hash_column. split.
  - intros (i & j & Hij & Hi & Hj).
    apply list_lookup_fmap_Some_1 in Hi as (ri & Hri & Hi).
    apply list_lookup_fmap_Some_1 in Hj as (rj & Hrj & Hj).
    by exists i, j, ri, rj.
  - intros (i & j & ri & rj & Hij & Hi & Hj & Hri & Hrj).
    exists i, j. split; [done|].
    unfold table, pandas.frame in *.
    rewrite !list_lookup_fmap, Hi, Hj. cbn. by rewrite Hri, Hrj.
Qed.

(** C3. The grouper keeps a record exactly when its hash occurs at least
    twice in the table, that is, at two distinct positions: a record
    whose hash stands at its own position only is dropped, and records
    carrying the failure marker are kept as soon as two positions carry
    it.  Every kept record is kept as many times as the table has it.
    [list_all_duplicates] applies the grouper to the table it builds. *)
Theorem grouper_membership `{pandas.SortKind} (tbl : table) :
  exists out,
    grouper tbl = Ok out
    /\ (forall fs folder ext fastscan,
          create_table fs folder ext fastscan = Ok tbl ->
          list_all_duplicates fs folder ext fastscan = Ok out)
    /\ (forall row,
          row ∈ out
          <-> row ∈ tbl
              /\ exists i j ri rj,
                   i ≠ j /\ tbl !! i = Some ri /\ tbl !! j = Some rj
                   /\ ri.2 = row.2 /\ rj.2 = row.2)
    /\ (forall i row,
          tbl !! i = Some row ->
          (forall j other,
             tbl !! j = Some other -> other.2 = row.2 -> j = i) ->
          row ∉ out)
    /\ (forall i j ri rj,
          i ≠ j -> tbl !! i = Some ri -> tbl !! j = Some rj ->
          ri.2 = no_hash -> rj.2 = no_hash -> ri ∈ out /\ rj ∈ out)
    /\ out ≡ₚ filter (fun row =>
                        2 ≤ length (filter (fun other => other.2 = row.2) tbl))
                     tbl.
Proof.
  destruct (grouper_spec tbl) as (out & Hout & Hperm & _).
  assert (Hmem : forall row,
            row ∈ out
            <-> row ∈ tbl
                /\ exists i j ri rj,
                     i ≠ j /\ tbl !! i = Some ri /\ tbl !! j = Some rj
                     /\ ri.2 = row.2 /\ rj.2 = row.2).
  { intros row.
    by rewrite Hperm, elem_of_duplicated_rows, hash_at_two_positions. }
  exists out. split; [done|]. split; [|split; [done|split; [|split]]].
  - intros fs folder ext fastscan Htbl.
    unfold list_all_duplicates. by rewrite Htbl.
  - intros i row Hi Halone
      [_ (a & b & ra & rb & Hab & Ha & Hb & Hra & Hrb)]%Hmem.
    apply Hab. by rewrite (Halone a ra), (Halone b rb).
  - intros i j ri rj Hij Hi Hj Hri Hrj.
    split; apply Hmem; (split; [by eapply list_elem_of_lookup_2|]);
      exists i, j, ri, rj; repeat split; congruence.
  - rewrite Hperm. unfold duplicated_rows.
    apply reflexive_eq, list_filter_iff.
    intros row. unfold hash_column. by rewrite occurrences_fmap.
Qed.

Lemma filter_none {A : Type} (P : A -> Prop) `{!forall a, Decision (P a)}
    (l : list A) :
  Forall (fun a => ¬ P a) l -> filter P l = [].
Proof.
  induction 1 as [|a l Ha _ IH]; [done|].
  by rewrite filter_cons, decide_False.
Qed.

Lemma sorted_lookup_le (l : list string) i j a b :
  Sorted String.le l -> i ≤ j -> l !! i = Some a -> l !! j = Some b ->
  String.le a b.
Proof.
  intros Hs%Sorted_StronglySorted; [|apply _].
  revert i j. induction Hs as [|x l Hs IH Hall]; intros i j Hij Hi Hj; [done|].
  destruct i as [|i], j as [|j]; cbn in Hi, Hj; try lia.
  - by simplify_eq.
  - simplify_eq. rewrite Forall_forall in Hall. apply Hall.
    by eapply list_elem_of_lookup_2.
  - apply (IH i j); [lia|done..].
Qed.

(** C7, as the code has it. The output of the grouper is in ascending
    order of the hash, so the records of one hash are contiguous, and it
    holds exactly the records with a duplicated hash; the order among
    records of equal hash is left to the sorting algorithm. *)
Theorem grouper_sorted `{pandas.SortKind} (tbl : table) :
  exists out,
    grouper tbl = Ok out
    /\ Sorted String.le (hash_column out)
    /\ (forall i j k ri rj rk,
          i ≤ j ≤ k ->
          out !! i = Some ri -> out !! j = Some rj -> out !! k = Some rk ->
          ri.2 = rk.2 -> rj.2 = ri.2)
    /\ out ≡ₚ duplicated_rows tbl.
Proof.
  destruct (grouper_spec tbl) as (out & Hout & Hperm & Hsorted).
  exists out. split; [done|]. split; [done|]. split; [|done].
  intros i j k ri rj rk [Hij Hjk] Hi Hj Hk Heq.
  assert (Hlookup : forall n r, out !! n = Some r ->
                                hash_column out !! n = Some r.2).
  { intros n r Hn. unfold hash_column. rewrite list_lookup_fmap.
    unfold table, pandas.frame in *. by rewrite Hn. }
  apply (anti_symm String.le).
  - rewrite Heq. eapply (sorted_lookup_le _ j k); eauto.
  - eapply (sorted_lookup_le _ i j); eauto.
Qed.

(** C9. [preselect] drops the paths that are not regular files and keeps,
    in their order, the remaining paths whose size is the size of another
    remaining path; when the sizes are pairwise distinct nothing is
    kept. *)
Theorem preselect_size_duplicates fs (input_files : list string) :
  let checked_files := filter (fun file => isfile fs file) input_files in
  exists out,
    preselect fs input_files = Ok out
    /\ (forall file,
          file ∈ checked_files
          <-> file ∈ input_files /\ isfile fs file = true)
    /\ out = filter (fun file =>
                       2 ≤ pandas.occurrences (file_size fs file)
                             (file_size fs <$> checked_files))
                    checked_files
    /\ (forall file,
          file ∈ out
          <-> exists i j other,
                i ≠ j /\ checked_files !! i = Some file
                /\ checked_files !! j = Some other
                /\ getsize fs file = getsize fs other)
    /\ (NoDup (file_size fs <$> checked_files) -> out = [])
    /\ out `sublist_of` input_files.
Proof.
  intros checked_files. exists (preselected fs input_files).
  assert (Hchecked : forall file,
            file ∈ checked_files
            <-> file ∈ input_files /\ isfile fs file = true).
  { intros file. unfold checked_files. rewrite list_elem_of_filter.
    rewrite Is_true_true. tauto. }
  assert (Hsize : forall file, file ∈ checked_files ->
            getsize fs file = Ok (file_size fs file)).
  { intros file [_ Hfile]%Hchecked. by apply getsize_isfile. }
  split; [apply preselect_preselected|].
  split; [done|]. split; [done|]. split; [|split].
  - intros file. unfold preselected. fold checked_files.
    rewrite list_elem_of_filter, occurrences_two. split.
    + intros [(a & b & Hab & Ha & Hb) Hin].
      apply list_elem_of_lookup_1 in Hin as [i Hi].
      assert (Hother : exists j, j ≠ i
                /\ (file_size fs <$> checked_files) !! j
                   = Some (file_size fs file)).
      { destruct (decide (a = i)) as [->|]; [exists b|exists a]; done. }
      destruct Hother as (j & Hji & Hj).
      apply list_lookup_fmap_Some_1 in Hj as (other & Hsz & Hj).
      exists i, j, other. repeat split; try done.
      rewrite !Hsize; [by rewrite Hsz| |];
        by eapply list_elem_of_lookup_2.
    + intros (i & j & other & Hij & Hi & Hj & Hsz). split.
      * exists i, j. repeat split; [done|..].
        -- by rewrite list_lookup_fmap, Hi.
        -- rewrite list_lookup_fmap, Hj. cbn. unfold file_size.
           by rewrite Hsz.
      * by eapply list_elem_of_lookup_2.
  - intros Hnd. unfold preselected. fold checked_files.
    apply filter_none, Forall_forall. intros file _ Htwo.
    pose proof (occurrences_NoDup (file_size fs file) _ Hnd). lia.
  - unfold preselected. etrans; apply sublist_filter.
Qed.

(** ** Positional selection and [drop_duplicates] *)

Lemma take_rows_app {A : Type} (i1 i2 : list nat) (rows : list A) :
  pandas.take_rows (i1 ++ i2) rows
  = (l1 ← pandas.take_rows i1 rows;
     l2 ← pandas.take_rows i2 rows; Ok (l1 ++ l2)).
Proof.
  unfold pandas.take_rows. induction i1 as [|i i1 IH]; cbn [map_result app].
  - rewrite bind_Ok. by destruct (map_result _ i2).
  - destruct (rows !! i) as [r|]; [|done]. rewrite !bind_Ok, IH.
    destruct (map_result _ i1) as [l1|e]; [|done]. rewrite !bind_Ok.
    by destruct (map_result _ i2).
Qed.

Lemma take_rows_const {A B : Type} (i : nat) (l : list B) (rows : list A) r :
  rows !! i = Some r ->
  pandas.take_rows ((fun _ => i) <$> l) rows = Ok (replicate (length l) r).
Proof.
  intros Hi. unfold pandas.take_rows.
  induction l as [|b l IH]; [done|].
  cbn [fmap list_fmap map_result length replicate].
  by rewrite Hi, bind_Ok, IH, bind_Ok.
Qed.

Lemma iloc_masks_app {A : Type} (mask_of : A -> list bool) (pre rows : list A) :
  pandas.take_rows
    (mjoin (imap (fun (i : nat) (m : list bool) =>
                    (fun _ : bool => length pre + i)
                      <$> filter (fun b => b = true) m)
                 (mask_of <$> rows)) : list nat)
    (pre ++ rows)
  = Ok (mjoin ((fun r => replicate
                           (length (filter (fun b => b = true) (mask_of r))) r)
               <$> rows) : list A).
Proof.
  revert pre. induction rows as [|r rows IH]; intros pre; [done|].
  rewrite !fmap_cons, imap_cons, !join_cons, take_rows_app.
  rewrite (take_rows_const _ _ _ r).
  2:{ rewrite Nat.add_0_r. by apply list_lookup_middle. }
  rewrite bind_Ok.
  specialize (IH (pre ++ [r])). rewrite <- app_assoc in IH. cbn [app] in IH.
  erewrite imap_ext; [rewrite IH; by rewrite bind_Ok|].
  intros i m _. cbn. rewrite length_app. cbn [length].
  by replace (length pre + 1 + i) with (length pre + S i) by lia.
Qed.

(** [iloc] with one mask per row repeats every row once for every [True]
    of its mask. *)
Lemma iloc_masks {A : Type} (mask_of : A -> list bool) (rows : list A) :
  pandas.iloc rows (mask_of <$> rows)
  = Ok (mjoin ((fun r => replicate
                           (length (filter (fun b => b = true) (mask_of r))) r)
               <$> rows) : list A).
Proof. apply (iloc_masks_app mask_of [] rows). Qed.

Lemma eq_scalar_count `{EqDecision V} (col : list V) (v : V) :
  length (filter (fun b => b = true) (pandas.eq_scalar col v))
  = pandas.occurrences v col.
Proof.
  unfold pandas.eq_scalar. induction col as [|x col IH]; [done|].
  rewrite fmap_cons, filter_cons, occurrences_cons.
  destruct (decide (x = v)) as [->|Hne].
  - rewrite bool_decide_eq_true_2, decide_True by done. cbn. by rewrite IH.
  - rewrite bool_decide_eq_false_2, decide_False by done. by rewrite IH.
Qed.

Lemma select_eq_scalar `{EqDecision V} {A : Type} (key : A -> V) (v : V)
    (rows : list A) :
  pandas.select rows (pandas.eq_scalar (key <$> rows) v)
  = filter (fun row => key row = v) rows.
Proof.
  unfold pandas.eq_scalar. induction rows as [|r rows IH]; [done|].
  rewrite !fmap_cons, filter_cons. cbn [pandas.select]. rewrite IH.
  destruct (decide (key r = v)) as [Hd|Hd].
  - by rewrite bool_decide_eq_true_2.
  - by rewrite bool_decide_eq_false_2.
Qed.

Section drop_duplicates.
Context {V : Type}.
Implicit Types (rows : list (string * V)) (seen : list string).

Lemma drop_duplicates_replicate seen n (r : string * V) rows :
  pandas.drop_duplicates_from seen (replicate (S n) r ++ rows)
  = pandas.drop_duplicates_from seen (r :: rows).
Proof.
  revert seen. induction n as [|n IH]; intros seen; [done|].
  change (replicate (S (S n)) r ++ rows)
    with (r :: (replicate (S n) r ++ rows)).
  cbn [pandas.drop_duplicates_from].
  destruct (decide (r.1 ∈ seen)) as [Hin|Hnin].
  - rewrite IH. cbn [pandas.drop_duplicates_from]. by rewrite decide_True.
  - rewrite IH. cbn [pandas.drop_duplicates_from].
    rewrite decide_True; [done|]. apply elem_of_cons. by left.
Qed.

Lemma drop_duplicates_repeated seen (count : string * V -> nat) rows :
  pandas.drop_duplicates_from seen
    (mjoin ((fun r => replicate (count r) r) <$> rows))
  = pandas.drop_duplicates_from seen (filter (fun r => 0 < count r) rows).
Proof.
  revert seen. induction rows as [|r rows IH]; intros seen; [done|].
  rewrite fmap_cons, join_cons, filter_cons.
  destruct (count r) as [|n] eqn:Hn.
  - rewrite decide_False by lia. apply IH.
  - rewrite decide_True by lia. rewrite drop_duplicates_replicate.
    cbn [pandas.drop_duplicates_from].
    destruct (decide (r.1 ∈ seen)); by rewrite IH.
Qed.

Lemma drop_duplicates_sublist seen rows :
  pandas.drop_duplicates_from seen rows `sublist_of` rows.
Proof.
  revert seen. induction rows as [|r rows IH]; intros seen; [done|].
  cbn [pandas.drop_duplicates_from].
  destruct (decide (r.1 ∈ seen)).
  - by apply sublist_cons.
  - by apply sublist_skip.
Qed.

Lemma drop_duplicates_unseen seen rows r :
  r ∈ pandas.drop_duplicates_from seen rows -> r.1 ∉ seen.
Proof.
  revert seen. induction rows as [|x rows IH]; intros seen.
  - by intros ?%elem_of_nil.
  - cbn [pandas.drop_duplicates_from].
    destruct (decide (x.1 ∈ seen)) as [Hin|Hnin]; [by apply IH|].
    intros [->|Hr]%elem_of_cons; [done|].
    apply IH in Hr. rewrite not_elem_of_cons in Hr. tauto.
Qed.

Lemma drop_duplicates_NoDup seen rows :
  NoDup (fst <$> pandas.drop_duplicates_from seen rows).
Proof.
  revert seen. induction rows as [|x rows IH]; intros seen; [constructor|].
  cbn [pandas.drop_duplicates_from].
  destruct (decide (x.1 ∈ seen)) as [Hin|Hnin]; [by apply IH|].
  rewrite fmap_cons. constructor; [|by apply IH].
  intros (r & Hx & Hr)%list_elem_of_fmap.
  apply drop_duplicates_unseen in Hr. apply Hr.
  apply elem_of_cons. by left.
Qed.

Lemma drop_duplicates_first seen rows r :
  r ∈ rows -> r.1 ∉ seen ->
  (forall r', r' ∈ rows -> r'.1 = r.1 -> r' = r) ->
  r ∈ pandas.drop_duplicates_from seen rows.
Proof.
  revert seen. induction rows as [|x rows IH]; intros seen Hin Hseen Hfun.
  - by apply elem_of_nil in Hin.
  - cbn [pandas.drop_duplicates_from].
    assert (Hrest : forall r', r' ∈ rows -> r'.1 = r.1 -> r' = r).
    { intros r' Hr'. apply Hfun. by apply elem_of_cons; right. }
    apply elem_of_cons in Hin as [->|Hin].
    + rewrite decide_False by done. apply elem_of_cons. by left.
    + destruct (decide (x.1 ∈ seen)) as [Hx|Hx]; [by apply IH|].
      destruct (decide (x.1 = r.1)) as [Heq|Hne].
      * apply elem_of_cons; left. symmetry.
        apply Hfun; [apply elem_of_cons; by left|done].
      * apply elem_of_cons; right. apply IH; [done| |done].
        rewrite not_elem_of_cons. split; [congruence|done].
Qed.
End drop_duplicates.

Lemma functional_table_of fs files : functional (table_of fs files).
Proof.
  intros [p1 h1] [p2 h2] [_ H1]%elem_of_table_of [_ H2]%elem_of_table_of.
  cbn in *. intros ->. by subst.
Qed.

(** ** [compare_folders] and [find_duplicates] *)

Lemma compare_folders_spec fs reference_folder compare_folder ext :
  compare_folders fs reference_folder compare_folder ext
  = Ok (pandas.drop_duplicates
          (matching_rows
             (table_of fs (filelist fs (format_path fs reference_folder) ext))
             (table_of fs (filelist fs (format_path fs compare_folder) ext)))).
Proof.
  unfold compare_folders. rewrite !create_table_spec, !bind_Ok. cbn zeta.
  set (df_reference :=
         table_of fs (filelist fs (format_path fs reference_folder) ext)).
  set (df_compare :=
         table_of fs (filelist fs (format_path fs compare_folder) ext)).
  unfold hash_column at 2. rewrite <- list_fmap_compose.
  change ((fun x : string => pandas.eq_scalar (hash_column df_reference) x) ∘ snd)
    with (fun r : string * string =>
            pandas.eq_scalar (hash_column df_reference) r.2).
  rewrite (iloc_masks
             (fun r => pandas.eq_scalar (hash_column df_reference) r.2)
             df_compare).
  rewrite bind_Ok. f_equal. unfold pandas.drop_duplicates, matching_rows.
  rewrite (drop_duplicates_repeated []
             (fun r => length (filter (fun b => b = true)
                (pandas.eq_scalar (hash_column df_reference) r.2)))).
  f_equal. apply list_filter_iff. intros r.
  rewrite eq_scalar_count. apply occurrences_pos.
Qed.

Lemma find_duplicates_spec `{pandas.SortKind} fs file folder :
  admissible fs (format_path fs file) = true ->
  find_duplicates fs file folder
  = (duplicate_files ← list_all_duplicates fs (format_path fs folder) None false;
     Ok (filter (fun row => row.2 = fingerprint fs (format_path fs file))
           duplicate_files)).
Proof.
  intros Htarget.
  unfold find_duplicates. rewrite hashtable_one_path, bind_Ok by done.
  destruct (list_all_duplicates _ _ _ _) as [dups|e]; [|done].
  rewrite !bind_Ok. f_equal. unfold hash_column.
  apply (select_eq_scalar snd).
Qed.

(** C5, amended. From the tables of the two folders [compare_folders]
    returns the records of the table of the compare folder whose hash
    occurs in the table of the reference folder, in their order, each
    path once: every record of the result is a record of the compare
    table, and no path is reported twice however many reference files
    it matches.  A record of the result is a record of the reference
    table exactly when its path is listed under the reference folder
    too: never when the two listings share no path. *)
Theorem compare_folders_matches fs reference_folder compare_folder ext
    (df_reference df_compare : table) :
  let reference_files := filelist fs (format_path fs reference_folder) ext in
  let compare_files := filelist fs (format_path fs compare_folder) ext in
  create_table fs reference_folder ext false = Ok df_reference ->
  create_table fs compare_folder ext false = Ok df_compare ->
  exists out,
    compare_folders fs reference_folder compare_folder ext = Ok out
    /\ (forall row,
          row ∈ out <-> row ∈ df_compare /\ row.2 ∈ hash_column df_reference)
    /\ NoDup (file_column out)
    /\ out `sublist_of` df_compare
    /\ (forall row, row ∈ out -> row.1 ∈ compare_files)
    /\ (forall row,
          row ∈ out -> (row ∈ df_reference <-> row.1 ∈ reference_files))
    /\ ((forall file, file ∈ compare_files -> file ∉ reference_files) ->
        forall row, row ∈ out -> row ∉ df_reference).
Proof.
  intros reference_files compare_files.
  rewrite !create_table_spec. cbn zeta. fold reference_files compare_files.
  intros [= <-] [= <-].
  eexists. split; [apply compare_folders_spec|].
  cbn zeta. fold reference_files compare_files.
  set (df_reference := table_of fs reference_files).
  set (df_compare := table_of fs compare_files).
  assert (Hsub : pandas.drop_duplicates (matching_rows df_reference df_compare)
                 `sublist_of` df_compare).
  { etrans; [apply drop_duplicates_sublist|apply sublist_filter]. }
  assert (Hmem : forall row,
            row ∈ pandas.drop_duplicates (matching_rows df_reference df_compare)
            <-> row ∈ df_compare /\ row.2 ∈ hash_column df_reference).
  { intros row. split.
    - intros Hin. eapply elem_of_sublist in Hin; [|apply drop_duplicates_sublist].
      apply list_elem_of_filter in Hin. tauto.
    - intros [Hin Hhash]. apply drop_duplicates_first.
      + apply list_elem_of_filter. done.
      + apply not_elem_of_nil.
      + intros r' [_ Hr']%list_elem_of_filter Heq.
        by apply (functional_table_of fs compare_files). }
  assert (Hlisted : forall row,
            row ∈ pandas.drop_duplicates (matching_rows df_reference df_compare) ->
            row.1 ∈ compare_files /\ row.2 = fingerprint fs row.1).
  { intros row [Hin _]%Hmem. by apply elem_of_table_of in Hin. }
  assert (Href : forall row,
            row ∈ pandas.drop_duplicates (matching_rows df_reference df_compare) ->
            row ∈ df_reference <-> row.1 ∈ reference_files).
  { intros row [_ Hfp]%Hlisted. unfold df_reference.
    rewrite elem_of_table_of. tauto. }
  split; [done|]. split; [apply drop_duplicates_NoDup|]. split; [done|].
  split; [by intros row [Hin _]%Hlisted|]. split; [done|].
  intros Hdisjoint row Hrow Hin. apply (Href row Hrow) in Hin.
  apply (Hdisjoint row.1); [|done]. by apply Hlisted.
Qed.

Lemma compare_folders_matches_witness :
  let df_reference := [("/ref/x.txt", hashlib.hexdigest (bytes "X"))] in
  let df_compare := [("/cmp/y.txt", hashlib.hexdigest (bytes "X"));
                     ("/cmp/z.txt", hashlib.hexdigest (bytes "Z"))] in
  exists out,
    compare_folders fs_scenarios "/ref" "/cmp" None = Ok out
    /\ (forall row,
          row ∈ out <-> row ∈ df_compare /\ row.2 ∈ hash_column df_reference)
    /\ NoDup (file_column out)
    /\ out `sublist_of` df_compare
    /\ (forall row, row ∈ out -> row.1 ∈ ["/cmp/y.txt"; "/cmp/z.txt"])
    /\ (forall row,
          row ∈ out -> (row ∈ df_reference <-> row.1 ∈ ["/ref/x.txt"]))
    /\ ((forall file, file ∈ ["/cmp/y.txt"; "/cmp/z.txt"] ->
                      file ∉ ["/ref/x.txt"]) ->
        forall row, row ∈ out -> row ∉ df_reference).
Proof.
  apply (compare_folders_matches fs_scenarios "/ref" "/cmp" None
           [("/ref/x.txt", hashlib.hexdigest (bytes "X"))]
           [("/cmp/y.txt", hashlib.hexdigest (bytes "X"));
            ("/cmp/z.txt", hashlib.hexdigest (bytes "Z"))]);
    vm_compute; reflexivity.
Defined.

(** C5, as stated, fails: the result can hold records of the reference
    table.  With the whole tree as reference, the two records of the
    compare folder are records of the reference table too, and both are
    reported, [z.txt] with no other file of its content. *)
Lemma compare_folders_reference_records :
  create_table fs_scenarios "/" None false
  = Ok [("/text", hashlib.hexdigest (bytes
           "abcdbcdecdefdefgefghfghighijhijkijkljklmklmnlmnomnopnopq"));
        ("/sizes/x", hashlib.hexdigest (bytes "AB"));
        ("/sizes/y", hashlib.hexdigest (bytes "CD"));
        ("/ref/x.txt", hashlib.hexdigest (bytes "X"));
        ("/cmp/y.txt", hashlib.hexdigest (bytes "X"));
        ("/cmp/z.txt", hashlib.hexdigest (bytes "Z"))]
  /\ compare_folders fs_scenarios "/" "/cmp" None
     = Ok [("/cmp/y.txt", hashlib.hexdigest (bytes "X"));
           ("/cmp/z.txt", hashlib.hexdigest (bytes "Z"))].
Proof. split; vm_compute; reflexivity. Qed.

(** ** The failure marker among the duplicates *)

Lemma table_unreadable :
  table_of fs_unreadable (filelist fs_unreadable (format_path fs_unreadable "/d") None)
  = [("/d/u1", no_hash); ("/d/u2", no_hash)].
Proof. vm_compute. reflexivity. Qed.

Lemma table_unreadable_fastscan :
  table_of fs_unreadable
    (preselected fs_unreadable
       (filelist fs_unreadable (format_path fs_unreadable "/d") None))
  = [].
Proof. vm_compute. reflexivity. Qed.

(** C4, at a failing input. In a folder with two unreadable files of
    different sizes, the scan without pre-selection reports both files as
    duplicates of each other, and the scan with pre-selection reports
    nothing. *)
Theorem fastscan_changes_duplicates `{pandas.SortKind} :
  exists out_full out_fast,
    list_all_duplicates fs_unreadable "/d" None false = Ok out_full
    /\ list_all_duplicates fs_unreadable "/d" None true = Ok out_fast
    /\ out_full ≡ₚ [("/d/u1", no_hash); ("/d/u2", no_hash)]
    /\ out_fast = [].
Proof.
  rewrite !list_all_duplicates_spec. cbn zeta.
  rewrite table_unreadable, table_unreadable_fastscan.
  destruct (grouper_spec [("/d/u1", no_hash); ("/d/u2", no_hash)])
    as (out_full & -> & Hfull & _).
  destruct (grouper_spec []) as (out_fast & -> & Hfast & _).
  exists out_full, out_fast. repeat split.
  - by rewrite Hfull.
  - by apply Permutation_nil_r.
Qed.

(** C8, at a failing input. The target cannot be opened and no file of
    the folder has its content, yet the result holds the two unreadable
    files of the folder. *)
Theorem find_duplicates_of_unreadable `{pandas.SortKind} :
  exists out,
    find_duplicates fs_unreadable "/t/secret" "/d" = Ok out
    /\ out ≡ₚ [("/d/u1", no_hash); ("/d/u2", no_hash)]
    /\ resolve fs_unreadable "/t/secret" = Some (File (bytes "S") Denied)
    /\ Forall (fun file =>
                 forall content acc,
                   resolve fs_unreadable file = Some (File content acc) ->
                   content ≠ bytes "S")
         (filelist fs_unreadable "/d" None).
Proof.
  rewrite find_duplicates_spec by (vm_compute; reflexivity).
  rewrite list_all_duplicates_spec. cbn zeta.
  replace (format_path fs_unreadable (format_path fs_unreadable "/d"))
    with (format_path fs_unreadable "/d") by (vm_compute; reflexivity).
  rewrite table_unreadable.
  replace (fingerprint fs_unreadable (format_path fs_unreadable "/t/secret"))
    with no_hash by (vm_compute; reflexivity).
  destruct (grouper_spec [("/d/u1", no_hash); ("/d/u2", no_hash)])
    as (dups & -> & Hdups & _).
  rewrite bind_Ok. eexists. split; [done|]. split; [|split].
  - rewrite Hdups. done.
  - reflexivity.
  - repeat constructor; intros content acc; vm_compute; congruence.
Qed.

(** ** Path normalization *)

Lemma append_cons a s t : String a s +:+ t = String a (s +:+ t).
Proof. reflexivity. Qed.

Lemma append_nil t : "" +:+ t = t.
Proof. reflexivity. Qed.

Lemma replace_same c s : replace c c s = s.
Proof.
  induction s as [|a s IH]; [done|]. cbn [replace]. rewrite IH.
  by destruct (decide (a = c)) as [->|].
Qed.

Lemma split_not_nil s : posixpath.split s ≠ [].
Proof.
  destruct s as [|c s]; [done|]. cbn [posixpath.split].
  destruct (decide (c = posixpath.sep)); [done|].
  by destruct (posixpath.split s).
Qed.

Lemma split_sep s :
  posixpath.split (String posixpath.sep s) = "" :: posixpath.split s.
Proof. cbn [posixpath.split]. by rewrite decide_True. Qed.

Lemma split_no_sep s : Forall no_sep (posixpath.split s).
Proof.
  induction s as [|c s IH]; [by repeat constructor|].
  cbn [posixpath.split]. destruct (decide (c = posixpath.sep)).
  - by constructor.
  - destruct (posixpath.split s) as [|h t]; [by repeat constructor|].
    apply Forall_cons in IH as [Hh Ht]. by repeat constructor.
Qed.

Lemma split_comp_sep comp rest :
  no_sep comp ->
  posixpath.split (comp +:+ String posixpath.sep rest)
  = comp :: posixpath.split rest.
Proof.
  induction comp as [|a comp IH]; intros Hcomp.
  - rewrite append_nil. apply split_sep.
  - destruct Hcomp as [Ha Hcomp]. rewrite append_cons.
    cbn [posixpath.split]. rewrite decide_False by done. by rewrite IH.
Qed.

Lemma split_comp comp : no_sep comp -> posixpath.split comp = [comp].
Proof.
  induction comp as [|a comp IH]; intros Hcomp; [done|].
  destruct Hcomp as [Ha Hcomp]. cbn [posixpath.split].
  rewrite decide_False by done. by rewrite IH.
Qed.

Lemma split_join_sep comps :
  Forall no_sep comps -> comps ≠ [] ->
  posixpath.split (posixpath.join_sep comps) = comps.
Proof.
  induction 1 as [|comp comps Hcomp Hcomps IH]; intros Hne; [done|].
  destruct comps as [|comp' comps].
  - by apply split_comp.
  - change (posixpath.join_sep (comp :: comp' :: comps))
      with (comp +:+ String posixpath.sep (posixpath.join_sep (comp' :: comps))).
    rewrite split_comp_sep by done. by rewrite IH.
Qed.

(** With initial slashes, the loop of [normpath] keeps clean components
    only. *)
Lemma norm_comps_clean n comps new_comps :
  0 < n -> Forall no_sep comps -> Forall clean new_comps ->
  Forall clean (posixpath.norm_comps n comps new_comps).
Proof.
  intros Hn Hcomps. revert new_comps.
  induction Hcomps as [|comp comps Hcomp _ IH]; intros new_comps Hnew; [done|].
  cbn [posixpath.norm_comps].
  destruct (decide (comp = "")) as [->|Hne]; [by apply IH|].
  destruct (decide (comp = ".")) as [->|Hdot]; [by apply IH|].
  rewrite (bool_decide_eq_false_2 (comp = "")) by done.
  rewrite (bool_decide_eq_false_2 (comp = ".")) by done. cbn [orb].
  destruct (decide (comp = "..")) as [->|Hdd].
  - rewrite (bool_decide_eq_false_2 (".." ≠ "..")) by naive_solver.
    rewrite (bool_decide_eq_false_2 (n = 0)) by lia. cbn [orb andb].
    assert (Hhead : head new_comps ≠ Some "..").
    { destruct Hnew as [|c l Hc _]; [done|]. cbn. intros [= ->].
      by destruct Hc as (_ & _ & _ & ?). }
    rewrite bool_decide_eq_false_2 by done.
    apply IH. destruct Hnew; [constructor|done].
  - rewrite (bool_decide_eq_true_2 (comp ≠ "..")) by done. cbn [orb].
    apply IH. by repeat constructor.
Qed.

(** Clean components and empty ones go through the loop unchanged, the
    empty ones being dropped. *)
Lemma norm_comps_fixed n comps new_comps :
  Forall clean comps ->
  posixpath.norm_comps n comps new_comps = rev comps ++ new_comps.
Proof.
  intros Hcomps. revert new_comps.
  induction Hcomps as [|comp comps (_ & Hne & Hdot & Hdd) _ IH];
    intros new_comps; [done|].
  cbn [posixpath.norm_comps].
  rewrite (bool_decide_eq_false_2 (comp = "")) by done.
  rewrite (bool_decide_eq_false_2 (comp = ".")) by done.
  rewrite (bool_decide_eq_true_2 (comp ≠ "..")) by done. cbn [orb].
  rewrite IH. cbn [rev]. by rewrite <- app_assoc.
Qed.

Lemma norm_comps_empty n comps new_comps :
  posixpath.norm_comps n ("" :: comps) new_comps
  = posixpath.norm_comps n comps new_comps.
Proof. reflexivity. Qed.

Lemma join_sep_head comps :
  Forall clean comps ->
  posixpath.join_sep comps = ""
  \/ exists c rest, posixpath.join_sep comps = String c rest
                    /\ c ≠ posixpath.sep.
Proof.
  destruct 1 as [|comp comps (Hsep & Hne & _) _]; [by left|]. right.
  destruct comp as [|c comp]; [done|]. destruct Hsep as [Hc _].
  exists c. destruct comps; cbn [posixpath.join_sep]; eauto.
Qed.

Lemma prefix_sep_false t :
  t = "" \/ (exists c rest, t = String c rest /\ c ≠ posixpath.sep) ->
  String.prefix "/" t = false.
Proof.
  intros [->|(c & rest & -> & Hc)]; [done|]. cbn [String.prefix].
  destruct (ascii_dec "/" c) as [<-|]; [by destruct Hc|done].
Qed.

Lemma prefix_empty t : String.prefix "" t = true.
Proof. by destruct t. Qed.

Lemma prefix_sep_cons p t :
  String.prefix (String "/" p) (String "/" t) = String.prefix p t.
Proof.
  cbn [String.prefix]. by destruct (ascii_dec "/" "/").
Qed.

(** A path made of one or two slashes and clean components is a fixed
    point of [normpath]. *)
Lemma normpath_fixed n comps :
  n = 1 \/ n = 2 -> Forall clean comps ->
  posixpath.normpath (posixpath.slashes n +:+ posixpath.join_sep comps)
  = posixpath.slashes n +:+ posixpath.join_sep comps.
Proof.
  intros Hn Hcomps.
  set (t := posixpath.join_sep comps).
  assert (Ht : String.prefix "/" t = false)
    by (apply prefix_sep_false, join_sep_head; done).
  assert (Hclean : Forall no_sep comps).
  { eapply Forall_impl; [done|]. by intros c (? & _). }
  assert (Hsplit : posixpath.norm_comps n (posixpath.split t) []
                   = rev comps).
  { destruct comps as [|c comps].
    - done.
    - unfold t. rewrite split_join_sep by done.
      by rewrite norm_comps_fixed, app_nil_r. }
  unfold posixpath.normpath.
  destruct Hn as [-> | ->]; cbn [posixpath.slashes];
    rewrite !append_cons, append_nil.
  - rewrite decide_False by done. cbn zeta.
    assert (Hinit : posixpath.initial_slashes (String posixpath.sep t) = 1).
    { unfold posixpath.initial_slashes, posixpath.startswith, posixpath.sep.
      rewrite !prefix_sep_cons, ?Ht, !prefix_empty. done. }
    rewrite Hinit, split_sep, norm_comps_empty, Hsplit, rev_involutive.
    cbn [posixpath.slashes]. rewrite append_cons, append_nil.
    by rewrite decide_False.
  - rewrite decide_False by done. cbn zeta.
    assert (Hinit : posixpath.initial_slashes
                      (String posixpath.sep (String posixpath.sep t)) = 2).
    { unfold posixpath.initial_slashes, posixpath.startswith, posixpath.sep.
      rewrite !prefix_sep_cons, ?Ht, !prefix_empty. done. }
    rewrite Hinit, !split_sep, !norm_comps_empty, Hsplit, rev_involutive.
    cbn [posixpath.slashes]. rewrite !append_cons, append_nil.
    by rewrite decide_False.
Qed.

Lemma initial_slashes_abs path :
  posixpath.isabs path = true ->
  posixpath.initial_slashes path = 1 \/ posixpath.initial_slashes path = 2.
Proof.
  unfold posixpath.isabs, posixpath.initial_slashes. intros ->.
  destruct (_ && _); auto.
Qed.

(** The normal form of an absolute path is absolute and normal. *)
Lemma normpath_abs path :
  posixpath.isabs path = true ->
  posixpath.isabs (posixpath.normpath path) = true
  /\ posixpath.normpath (posixpath.normpath path) = posixpath.normpath path.
Proof.
  intros Habs.
  assert (Hne : path ≠ "") by (by intros ->).
  pose proof (initial_slashes_abs path Habs) as Hn.
  remember (posixpath.initial_slashes path) as n eqn:En.
  remember (rev (posixpath.norm_comps n (posixpath.split path) [])) as comps
    eqn:Ecomps.
  assert (Hcomps : Forall clean comps).
  { subst comps. apply Forall_rev.
    apply norm_comps_clean; [lia|apply split_no_sep|constructor]. }
  assert (Hslash : exists rest,
            posixpath.slashes n +:+ posixpath.join_sep comps
            = String "/" rest).
  { destruct Hn as [-> | ->]; cbn [posixpath.slashes];
      rewrite append_cons; eauto. }
  destruct Hslash as (rest & Hrest).
  assert (Hnorm : posixpath.normpath path
                  = posixpath.slashes n +:+ posixpath.join_sep comps).
  { unfold posixpath.normpath. rewrite decide_False by done. cbn zeta.
    rewrite <- En, <- Ecomps. by rewrite decide_False by (by rewrite Hrest). }
  rewrite Hnorm. split.
  - rewrite Hrest. unfold posixpath.isabs, posixpath.startswith.
    by rewrite prefix_sep_cons, prefix_empty.
  - by apply normpath_fixed.
Qed.

Lemma join_abs a b :
  posixpath.isabs a = true -> posixpath.isabs (posixpath.join a b) = true.
Proof.
  intros Ha. unfold posixpath.join.
  destruct (posixpath.startswith "/" b) eqn:Hb; [done|].
  assert (Happ : forall t, posixpath.isabs (a +:+ t) = true).
  { intros t. unfold posixpath.isabs, posixpath.startswith in *.
    destruct a as [|c a]; [done|]. rewrite append_cons.
    cbn [String.prefix] in *. destruct (ascii_dec "/" c); [|done].
    apply prefix_empty. }
  destruct (_ || _); apply Happ.
Qed.

Lemma format_path_normal fs file :
  posixpath.isabs (cwd fs) = true ->
  posixpath.isabs (format_path fs file) = true
  /\ posixpath.normpath (format_path fs file) = format_path fs file.
Proof.
  intros Hcwd. unfold format_path, posixpath.abspath.
  apply normpath_abs.
  destruct (posixpath.isabs (replace "/" posixpath.sep file)) eqn:Habs; [done|].
  by apply join_abs.
Qed.

(** C10. When the working directory is an absolute path, as [os.getcwd]
    returns it, [format_path] is idempotent, so that the entry points
    which normalize their arguments behave the same on a normalized
    path. *)
Theorem format_path_idempotent fs (file : string) :
  posixpath.isabs (cwd fs) = true ->
  format_path fs (format_path fs file) = format_path fs file
  /\ (forall ext pre,
        create_table fs (format_path fs file) ext pre
        = create_table fs file ext pre)
  /\ (forall (K : pandas.SortKind) target,
        find_duplicates fs (format_path fs target) (format_path fs file)
        = find_duplicates fs target file).
Proof.
  intros Hcwd.
  assert (Hidem : forall p, format_path fs (format_path fs p) = format_path fs p).
  { intros p. destruct (format_path_normal fs p Hcwd) as [Habs Hnorm].
    unfold format_path at 1, posixpath.abspath.
    by rewrite replace_same, Habs. }
  split; [apply Hidem|]. split.
  - intros ext pre. unfold create_table. by rewrite Hidem.
  - intros K target. unfold find_duplicates. by rewrite !Hidem.
Qed.

Lemma format_path_idempotent_witness :
  format_path fs_scenario1 (format_path fs_scenario1 "data/../data//a.txt")
  = format_path fs_scenario1 "data/../data//a.txt".
Proof. by apply (format_path_idempotent fs_scenario1 _ eq_refl). Defined.

(** C7, as stated, fails. Eighteen copies of one file are listed in the
    order [a] to [r]; the default sort returns them in another order,
    although all have the same hash. *)
Lemma grouper_order_not_stable :
  create_table fs_copies "/d" None false = Ok (copies_in eighteen)
  /\ list_all_duplicates (H := quicksort_kind) fs_copies "/d" None false
     = Ok (copies_in ["a"; "p"; "o"; "n"; "m"; "l"; "k"; "j"; "i";
                      "h"; "g"; "f"; "e"; "d"; "c"; "b"; "q"; "r"])
  /\ ¬ stable_order (copies_in eighteen)
         (copies_in ["a"; "p"; "o"; "n"; "m"; "l"; "k"; "j"; "i";
                     "h"; "g"; "f"; "e"; "d"; "c"; "b"; "q"; "r"]).
Proof.
  split; [vm_compute; reflexivity|]. split; [vm_compute; reflexivity|].
  intros Hstable. specialize (Hstable digest_X).
  vm_compute in Hstable. discriminate Hstable.
Qed.

(** ** What holds of pre-selection and of the lookup of one file *)



Lemma duplicated_rows_table_of fs files :
  duplicated_rows (table_of fs files)
  = table_of fs
      (filter (fun file =>
                 2 ≤ pandas.occurrences (fingerprint fs file)
                       (fingerprint fs <$> files)) files).
Proof.
  unfold duplicated_rows. rewrite hash_column_table_of. unfold table_of.
  by rewrite (filter_fmap_comm (fun file => (file, fingerprint fs file))).
Qed.

Section preselection.
Context (fs : filesystem) (files : list string).

(** At most one path fails to hash. *)
Hypothesis one_failure :
  pandas.occurrences no_hash (fingerprint fs <$> files) ≤ 1.

(** SHA-256 does not identify two listed files of different sizes. *)
Hypothesis no_collision : forall p q c d,
  p ∈ files -> q ∈ files ->
  open fs p = Ok (Stream c false) -> open fs q = Ok (Stream d false) ->
  SHA256.digest c = SHA256.digest d -> length c = length d.








End preselection.


(** X23. When the target can be hashed, no two listed files have its
    content and SHA-256 gives no other listed content its digest, the
    lookup returns the empty table: one copy in the folder is not
    enough, whether the target lies in the folder or not. *)
Theorem find_duplicates_unique_content `{pandas.SortKind} fs file folder content :
  let files := filelist fs (format_path fs (format_path fs folder)) None in
  open fs (format_path fs file) = Ok (Stream content false) ->
  (forall p c,
     p ∈ files -> open fs p = Ok (Stream c false) ->
     SHA256.digest c = SHA256.digest content -> c = content) ->
  (forall i j p q,
     i ≠ j -> files !! i = Some p -> files !! j = Some q ->
     open fs p = Ok (Stream content false) ->
     open fs q = Ok (Stream content false) -> False) ->
  find_duplicates fs file folder = Ok [].
Proof.
  intros files Htarget Hfree Hunique.
  rewrite find_duplicates_spec by (by eapply open_admissible).
  rewrite list_all_duplicates_spec. cbn zeta.
  fold files.
  destruct (grouper_spec (table_of fs files)) as (dups & -> & Hdups & _).
  rewrite bind_Ok. f_equal. apply filter_none, Forall_forall.
  intros row Hrow Hhash. rewrite Hdups in Hrow.
  apply elem_of_duplicated_rows in Hrow as [_ Htwo].
  rewrite Hhash, (fingerprint_open _ _ content Htarget) in Htwo.
  rewrite hash_column_table_of in Htwo.
  apply occurrences_two in Htwo as (i & j & Hij & Hi & Hj).
  apply list_lookup_fmap_Some_1 in Hi as (p & Hfp & Hp).
  apply list_lookup_fmap_Some_1 in Hj as (q & Hfq & Hq).
  assert (Hsame : forall x, x ∈ files ->
            hashlib.hexdigest content = fingerprint fs x ->
            open fs x = Ok (Stream content false)).
  { intros x Hx Hfx.
    destruct (fingerprint_digest fs x) as (c & Hc & Hfc).
    { rewrite <- Hfx. apply hexdigest_not_no_hash. }
    rewrite Hc. do 2 f_equal. apply (Hfree x c Hx Hc).
    apply hexdigest_inj. congruence. }
  apply (Hunique i j p q Hij Hp Hq).
  - apply Hsame; [by eapply list_elem_of_lookup_2|done].
  - apply Hsame; [by eapply list_elem_of_lookup_2|done].
Qed.

(** ** The scenarios of the specification *)

Example scenario_duplicates :
  list_all_duplicates (H := quicksort_kind) fs_scenario1 "/data" None false
  = Ok [("/data/a.txt", digest_X); ("/data/b.txt", digest_X)].
Proof. vm_compute. reflexivity. Qed.

Example scenario_empty_folder :
  list_all_duplicates (H := quicksort_kind) fs_scenarios "/empty" None true = Ok []
  /\ list_all_duplicates (H := quicksort_kind) fs_scenarios "/empty" None false = Ok []
  /\ compare_folders fs_scenarios "/empty" "/empty" None = Ok []
  /\ find_duplicates (H := quicksort_kind) fs_scenarios "/ref/x.txt" "/empty" = Ok [].
Proof. repeat split; vm_compute; reflexivity. Qed.

Example scenario_equal_sizes :
  preselect fs_scenarios (filelist fs_scenarios "/sizes" None)
  = Ok ["/sizes/x"; "/sizes/y"]
  /\ list_all_duplicates (H := quicksort_kind) fs_scenarios "/sizes" None true
     = Ok [].
Proof. split; vm_compute; reflexivity. Qed.

Example scenario_compare_folders :
  compare_folders fs_scenarios "/ref" "/cmp" None
  = Ok [("/cmp/y.txt", digest_X)].
Proof. vm_compute. reflexivity. Qed.

Example scenario_extension :
  filelist fs_scenarios "/cmp" (Some ".txt") = ["/cmp/y.txt"; "/cmp/z.txt"]
  /\ filelist fs_scenarios "/cmp" (Some "txt") = [].
Proof. split; vm_compute; reflexivity. Qed.

Example hashfile_blocks :
  chunks 24 (bytes "abcdbcdecdefdefgefghfghighijhijkijkljklmklmnlmnomnopnopq")
  = [bytes "abcdbcdecdefdefgefghfghi"; bytes "ghijhijkijkljklmklmnlmno";
     bytes "mnopnopq"]
  /\ hashfile fs_scenarios "/text" 24
     = Ok "248d6a61d20638b8e5c026930c3e6039a33ce45964ff2167f6ecedd419db06c1"
  /\ hashfile fs_scenarios "/text" default_block_size
     = Ok "248d6a61d20638b8e5c026930c3e6039a33ce45964ff2167f6ecedd419db06c1"
  /\ hashfile fs_scenarios "/text" (-1)
     = Ok "248d6a61d20638b8e5c026930c3e6039a33ce45964ff2167f6ecedd419db06c1".
Proof. repeat split; vm_compute; reflexivity. Qed.

(** * Further properties of the program *)

(** ** Block sizes *)

(** X1. Up to the default, the block size is a matter of memory only:
    with any positive block size that is not larger than 65536,
    [hashfile] gives what it gives with 65536, the same digest or the
    same error. *)
Theorem hashfile_block_size fs file (block_size : Z) :
  (0 < block_size <= default_block_size)%Z ->
  hashfile fs file block_size = hashfile fs file default_block_size.
Proof.
  intros Hsize. rewrite hashfile_default. apply hashfile_open.
  unfold default_block_size in Hsize. lia.
Qed.

Lemma hashfile_block_size_witness :
  hashfile fs_scenarios "/text" 24 = hashfile fs_scenarios "/text" default_block_size
  /\ hashfile fs_scenarios "/missing" 1
     = hashfile fs_scenarios "/missing" default_block_size.
Proof.
  split.
  - apply (hashfile_block_size fs_scenarios "/text" 24).
    unfold default_block_size. lia.
  - apply (hashfile_block_size fs_scenarios "/missing" 1).
    unfold default_block_size. lia.
Defined.

(** X2. With a block size of [0] the first read returns no byte, the
    loop is not entered, and [hashfile] returns the digest of the empty
    message for every file that can be opened, whatever it holds. *)
Theorem hashfile_block_size_zero fs file message :
  open fs file = Ok message ->
  hashfile fs file 0
  = Ok "e3b0c44298fc1c149afbf4c8996fb92427ae41e4649b934ca495991b7852b855".
Proof.
  intros Hopen. unfold hashfile. rewrite Hopen. cbn.
  assert (Hread : read message 0
                  = Ok ([], Stream (pending message) (fault message))).
  { unfold read.
    rewrite (bool_decide_eq_false_2 (0 < - 2 ^ 63)%Z) by lia.
    rewrite (bool_decide_eq_false_2 (2 ^ 63 ≤ 0)%Z) by lia. cbn [orb].
    rewrite (bool_decide_eq_false_2 (0 < -1)%Z) by lia.
    rewrite (bool_decide_eq_true_2 (0 ≤ 0)%Z) by lia.
    rewrite bool_decide_eq_true_2 by (cbn; lia). done. }
  rewrite Hread. cbn.
  rewrite update_blocks_equation_1. cbn. f_equal.
Qed.

Lemma hashfile_block_size_zero_witness :
  hashfile fs_scenarios "/text" 0
  = Ok "e3b0c44298fc1c149afbf4c8996fb92427ae41e4649b934ca495991b7852b855".
Proof.
  apply (hashfile_block_size_zero fs_scenarios "/text"
           (Stream (bytes "abcdbcdecdefdefgefghfghighijhijkijkljklmklmnlmnomnopnopq") false)).
  reflexivity.
Defined.

Lemma open_readable fs file content :
  open fs file = Ok (Stream content false)
  <-> resolve fs file = Some (File content Readable).
Proof. split; [apply open_resolve|apply resolve_open]. Qed.


(** ** Listing *)

Lemma walk_not_dir fs top :
  (forall entries, resolve fs top ≠ Some (Dir entries)) -> walk fs top = [].
Proof.
  intros Hno. unfold walk.
  destruct (resolve fs top) as [[content acc|entries|]|] eqn:Hres; try done.
  by destruct (Hno entries).
Qed.

Lemma grouper_nil `{pandas.SortKind} : grouper [] = Ok [].
Proof.
  destruct (grouper_spec []) as (out & -> & Hperm & _).
  f_equal. by apply Permutation_nil_r in Hperm.
Qed.

(** X4. Scanning a path without NUL character that is not a folder (a
    missing path, a regular file) is no error: [os.walk] swallows the
    [OSError] of the scan, no file is listed, the table is empty and so
    is the list of duplicates. *)
Theorem scan_not_a_folder `{pandas.SortKind} fs folder ext fastscan :
  has_nul (format_path fs folder) = false ->
  (forall entries, resolve fs (format_path fs folder) ≠ Some (Dir entries)) ->
  filelist fs (format_path fs folder) ext = []
  /\ create_table fs folder ext fastscan = Ok []
  /\ list_all_duplicates fs folder ext fastscan = Ok [].
Proof.
  intros _ Hno.
  assert (Hlist : filelist fs (format_path fs folder) ext = []).
  { unfold filelist. by rewrite walk_not_dir. }
  split; [done|].
  assert (Htable : create_table fs folder ext fastscan = Ok []).
  { rewrite create_table_spec. cbn zeta. rewrite Hlist. by destruct fastscan. }
  split; [done|].
  unfold list_all_duplicates. rewrite Htable. apply grouper_nil.
Qed.

Lemma scan_not_a_folder_witness :
  list_all_duplicates (H := quicksort_kind) fs_scenarios "/text" None true = Ok []
  /\ list_all_duplicates (H := quicksort_kind) fs_scenarios "missing" None false = Ok [].
Proof.
  split.
  - apply (scan_not_a_folder (H := quicksort_kind) fs_scenarios "/text" None true).
    + reflexivity.
    + intros entries. vm_compute. discriminate.
  - apply (scan_not_a_folder (H := quicksort_kind) fs_scenarios "missing" None false).
    + reflexivity.
    + intros entries. vm_compute. discriminate.
Defined.

(** ** Extensions *)

Lemma rfind_from_spec c s i j :
  posixpath.rfind_from c s i = Some j ->
  i ≤ j < i + String.length s /\ String.get (j - i) s = Some c.
Proof.
  revert i j. induction s as [|c' s IH]; intros i j; cbn [posixpath.rfind_from].
  - done.
  - destruct (posixpath.rfind_from c s (S i)) as [k|] eqn:Hk.
    + intros [= <-]. apply IH in Hk as [Hle Hget]. cbn [String.length].
      split; [lia|]. replace (k - i) with (S (k - S i)) by lia. done.
    + destruct (decide (c' = c)) as [->|]; [|done].
      intros [= <-]. cbn [String.length]. split; [lia|].
      by rewrite Nat.sub_diag.
Qed.

Lemma substring_get n m s c :
  String.get n s = Some c ->
  exists rest, String.substring n (S m) s = String c rest.
Proof.
  revert s. induction n as [|n IH]; intros [|c' s]; cbn; try done.
  - intros [= ->]. eauto.
  - apply IH.
Qed.

(** The extension [splitext] returns is empty or begins with a dot. *)
Lemma splitext_dot p :
  (posixpath.splitext p).2 = ""
  \/ exists rest, (posixpath.splitext p).2 = String "." rest.
Proof.
  unfold posixpath.splitext.
  destruct (posixpath.rfind "." p) as [dot_index|] eqn:Hdot; [|by left].
  destruct (_ && _); [|by left]. right. cbn [snd].
  apply rfind_from_spec in Hdot as [Hlt Hget].
  rewrite Nat.sub_0_r in Hget.
  replace (String.length p - dot_index) with (S (String.length p - dot_index - 1))
    by lia.
  by apply substring_get.
Qed.

Lemma filelist_no_match fs filepath ext :
  (forall name, (posixpath.splitext name).2 ≠ ext) ->
  filelist fs filepath (Some ext) = [].
Proof.
  intros Hno. unfold filelist.
  induction (walk fs filepath) as [|[[path dirs] files] w IH]; [done|].
  cbn. cbn in IH. rewrite IH, app_nil_r.
  induction files as [|name files IHf]; [done|].
  cbn. rewrite IHf, app_nil_r.
  rewrite bool_decide_eq_false_2; [done|].
  intros [= Heq]. by apply (Hno name).
Qed.

(** X6. The extension is compared with what [splitext] returns, dot
    included: an [ext] that is not empty and does not begin with a dot
    (['txt'] for ['.txt']) selects no file, and the scan reports
    nothing. *)
Theorem filelist_ext_without_dot `{pandas.SortKind} fs folder ext c rest fastscan :
  ext = String c rest -> c ≠ "."%char ->
  (forall filepath, filelist fs filepath (Some ext) = [])
  /\ list_all_duplicates fs folder (Some ext) fastscan = Ok [].
Proof.
  intros -> Hc.
  assert (Hlist : forall filepath, filelist fs filepath (Some (String c rest)) = []).
  { intros filepath. apply filelist_no_match. intros name Hext.
    destruct (splitext_dot name) as [Hempty|[rest' Hdot]]; congruence. }
  split; [done|].
  rewrite list_all_duplicates_spec. cbn zeta. rewrite Hlist.
  destruct fastscan; apply grouper_nil.
Qed.

Lemma length_append s t :
  String.length (s +:+ t) = String.length s + String.length t.
Proof.
  induction s as [|a s IH]; [done|].
  rewrite append_cons. cbn [String.length]. by rewrite IH.
Qed.

Lemma length_list_ascii s :
  length (list_ascii_of_string s) = String.length s.
Proof. induction s as [|a s IH]; cbn; [done|]. by rewrite IH. Qed.

Lemma substring_append pre s n m :
  String.substring (String.length pre + n) m (pre +:+ s) = String.substring n m s.
Proof.
  induction pre as [|a pre IH]; [done|].
  rewrite append_cons. cbn [String.length Nat.add String.substring]. apply IH.
Qed.

Lemma rfind_from_shift c s i :
  posixpath.rfind_from c s i = (fun j => i + j) <$> posixpath.rfind_from c s 0.
Proof.
  revert i. induction s as [|a s IH]; intros i; cbn [posixpath.rfind_from]; [done|].
  rewrite (IH (S i)), (IH 1).
  destruct (posixpath.rfind_from c s 0) as [j|]; cbn.
  - f_equal. lia.
  - destruct (decide (a = c)); cbn; [f_equal; lia|done].
Qed.

Lemma rfind_from_append c pre s i :
  posixpath.rfind_from c (pre +:+ s) i
  = match posixpath.rfind_from c s (i + String.length pre) with
    | Some j => Some j
    | None => posixpath.rfind_from c pre i
    end.
Proof.
  revert i. induction pre as [|a pre IH]; intros i; cbn [posixpath.rfind_from].
  - rewrite append_nil. cbn [String.length]. rewrite Nat.add_0_r.
    by destruct (posixpath.rfind_from c s i).
  - rewrite append_cons. cbn [posixpath.rfind_from String.length].
    rewrite IH. replace (S i + String.length pre) with (i + S (String.length pre))
      by lia.
    by destruct (posixpath.rfind_from c s (i + S (String.length pre))).
Qed.

Lemma rfind_from_no_sep s i :
  no_sep s -> posixpath.rfind_from posixpath.sep s i = None.
Proof.
  revert i. induction s as [|a s IH]; intros i; cbn; [done|].
  intros [Ha Hs]. rewrite IH by done. by destruct (decide (a = posixpath.sep)).
Qed.

Lemma rfind_from_endswith pre i :
  posixpath.endswith_sep pre = true ->
  posixpath.rfind_from posixpath.sep pre i = Some (i + String.length pre - 1).
Proof.
  revert i. induction pre as [|a pre IH]; intros i; [done|].
  cbn [posixpath.endswith_sep posixpath.rfind_from String.length].
  destruct pre as [|b pre].
  - intros Ha%bool_decide_eq_true. cbn.
    destruct (decide (a = posixpath.sep)); [f_equal; lia|done].
  - intros Hend. rewrite IH by done. f_equal. cbn [String.length]. lia.
Qed.

(** The extension of a path that ends in a separator-free name is the
    extension of that name: dots in the folders before it play no
    part. *)
Lemma splitext_append pre name :
  pre = "" \/ posixpath.endswith_sep pre = true ->
  no_sep name ->
  (posixpath.splitext (pre +:+ name)).2 = (posixpath.splitext name).2.
Proof.
  intros Hpre Hname. unfold posixpath.splitext, posixpath.rfind.
  assert (Hidx :
    match posixpath.rfind_from posixpath.sep (pre +:+ name) 0 with
    | Some i => S i
    | None => 0
    end = String.length pre).
  { rewrite rfind_from_append, rfind_from_no_sep by done.
    destruct Hpre as [->|Hend]; [done|].
    rewrite rfind_from_endswith by done.
    destruct pre; [done|]. cbn [String.length]. lia. }
  rewrite Hidx. rewrite (rfind_from_no_sep name 0) by done.
  rewrite rfind_from_append. cbn [Nat.add].
  rewrite (rfind_from_shift _ name (String.length pre)).
  destruct (posixpath.rfind_from "." name 0) as [d|] eqn:Hd; cbn [fmap option_fmap option_map].
  - rewrite !bool_decide_eq_true_2 by lia. cbn [andb].
    assert (Hdots :
      posixpath.has_non_dot (pre +:+ name) (String.length pre) (String.length pre + d)
      = posixpath.has_non_dot name 0 d).
    { unfold posixpath.has_non_dot. rewrite list_ascii_append.
      rewrite drop_app_length'; [|by rewrite length_list_ascii].
      rewrite drop_0. do 3 f_equal. lia. }
    rewrite Hdots. destruct (posixpath.has_non_dot name 0 d); [|done].
    cbn [snd]. rewrite substring_append. f_equal.
    rewrite length_append. lia.
  - destruct (posixpath.rfind_from "." pre 0) as [j|] eqn:Hj; [|done].
    apply rfind_from_spec in Hj.
    rewrite bool_decide_eq_false_2 by lia. done.
Qed.

Lemma prefix_sep_no_sep name :
  name ≠ "" -> no_sep name -> posixpath.startswith "/" name = false.
Proof.
  destruct name as [|a name]; [done|]. intros _ [Ha _].
  apply prefix_sep_false. right. eauto.
Qed.

Lemma endswith_sep_append a :
  posixpath.endswith_sep (a +:+ String posixpath.sep "") = true.
Proof.
  induction a as [|c a IH]; [done|].
  rewrite append_cons. cbn [posixpath.endswith_sep].
  destruct (a +:+ String posixpath.sep "") eqn:Ha; [by destruct a|done].
Qed.

Lemma append_assoc a b c : (a +:+ b) +:+ c = a +:+ (b +:+ c).
Proof.
  induction a as [|x a IH]; [done|]. rewrite !append_cons. by rewrite IH.
Qed.

Lemma splitext_join path name :
  name ≠ "" -> no_sep name ->
  (posixpath.splitext (posixpath.join path name)).2 = (posixpath.splitext name).2.
Proof.
  intros Hne Hname. unfold posixpath.join.
  rewrite prefix_sep_no_sep by done.
  destruct (bool_decide (path = "") || posixpath.endswith_sep path) eqn:Hpath.
  - apply splitext_append; [|done].
    apply orb_true_iff in Hpath as [Hp%bool_decide_eq_true|Hp]; auto.
  - change (String posixpath.sep name) with (String posixpath.sep "" +:+ name).
    rewrite <- append_assoc. apply splitext_append; [|done].
    right. apply endswith_sep_append.
Qed.

Lemma filelist_unfold fs filepath ext :
  filelist fs filepath ext
  = '(path, _, files) ← walk fs filepath;
    posixpath.join path <$>
      filter (fun name => ext = None \/ Some (posixpath.splitext name).2 = ext) files.
Proof.
  unfold filelist.
  induction (walk fs filepath) as [|[[path dirs] files] w IH]; [done|].
  cbn. cbn in IH. rewrite IH. f_equal.
  induction files as [|name files IHf]; [done|].
  cbn. rewrite IHf.
  destruct (decide (ext = None ∨ Some (posixpath.splitext name).2 = ext)) as [Hy|Hn].
  - destruct Hy as [Hy|Hy].
    + by rewrite (bool_decide_eq_true_2 _ Hy).
    + rewrite (bool_decide_eq_true_2 (Some _ = ext) Hy).
      by rewrite orb_true_r.
  - rewrite !bool_decide_eq_false_2 by tauto. done.
Qed.

(** X5. With [ext] given, [filelist] returns, in the same order, the
    paths of the full listing whose own extension is [ext], provided
    file names are not empty and hold no separator (as the names of
    directory entries are): the dots of the folders above a file play
    no part, and a name such as ['.bashrc'] has no extension. *)
Theorem filelist_ext_filter fs filepath ext :
  (forall path dirs files name,
     (path, dirs, files) ∈ walk fs filepath -> name ∈ files ->
     name ≠ "" /\ no_sep name) ->
  filelist fs filepath (Some ext)
  = filter (fun file => (posixpath.splitext file).2 = ext)
      (filelist fs filepath None)
  /\ filelist fs filepath (Some ext) `sublist_of` filelist fs filepath None.
Proof.
  intros Hnames.
  assert (Heq : filelist fs filepath (Some ext)
    = filter (fun file => (posixpath.splitext file).2 = ext)
        (filelist fs filepath None)).
  { rewrite !filelist_unfold.
    induction (walk fs filepath) as [|[[path dirs] files] w IH]; [done|].
    cbn. rewrite filter_app. f_equal.
    - assert (Hfiles : forall name, name ∈ files -> name ≠ "" /\ no_sep name).
      { intros name Hin. apply (Hnames path dirs files name); [left|done]. }
      clear IH Hnames. induction files as [|name files IHf]; [done|].
      destruct (Hfiles name) as [Hne Hsep]; [left|].
      rewrite (filter_cons (fun _ => None = None ∨ _)).
      rewrite decide_True by auto.
      rewrite fmap_cons, !filter_cons, splitext_join by done.
      rewrite <- IHf by (intros; apply Hfiles; by right).
      destruct (decide ((posixpath.splitext name).2 = ext)) as [He|He].
      + rewrite decide_True by (right; congruence). done.
      + rewrite decide_False; [done|]. intros [|[=]]; done.
    - apply IH. intros p' d' f' n' Hin. apply (Hnames p' d' f' n'). by right. }
  split; [done|]. rewrite Heq. apply sublist_filter.
Qed.

Lemma filelist_ext_filter_witness :
  filelist fs_extensions "/pkg.d" (Some ".txt")
  = filter (fun file => (posixpath.splitext file).2 = ".txt")
      (filelist fs_extensions "/pkg.d" None)
  /\ filelist fs_extensions "/pkg.d" (Some ".txt")
     `sublist_of` filelist fs_extensions "/pkg.d" None.
Proof.
  apply (filelist_ext_filter fs_extensions "/pkg.d" ".txt").
  intros path dirs files name Hin Hname. vm_compute in Hin.
  repeat (apply elem_of_cons in Hin as [Hin|Hin]);
    [injection Hin as -> -> ->..|by apply elem_of_nil in Hin];
    repeat (apply elem_of_cons in Hname as [->|Hname]);
    try (by apply elem_of_nil in Hname);
    (split; [discriminate|cbn; repeat split; discriminate]).
Defined.

Example filelist_extensions :
  filelist fs_extensions "/pkg.d" None
  = ["/pkg.d/readme"; "/pkg.d/a.txt"; "/pkg.d/.bashrc";
     "/pkg.d/sub.txt/b.txt"; "/pkg.d/sub.txt/notes"]
  /\ filelist fs_extensions "/pkg.d" (Some ".txt")
     = ["/pkg.d/a.txt"; "/pkg.d/sub.txt/b.txt"]
  /\ filelist fs_extensions "/pkg.d" (Some "")
     = ["/pkg.d/readme"; "/pkg.d/.bashrc"; "/pkg.d/sub.txt/notes"].
Proof. vm_compute. done. Qed.

Lemma filelist_ext_without_dot_witness :
  (forall filepath, filelist fs_scenario1 filepath (Some "txt") = [])
  /\ list_all_duplicates (H := quicksort_kind) fs_scenario1 "/data" (Some "txt") false
     = Ok [].
Proof.
  apply (filelist_ext_without_dot (H := quicksort_kind) fs_scenario1 "/data"
           "txt" "t"%char "xt" false); [reflexivity|discriminate].
Defined.

(** ** Keeping what is duplicated *)

Lemma filter_all {A : Type} (P : A -> Prop) `{!forall a, Decision (P a)}
    (l : list A) :
  (forall a, a ∈ l -> P a) -> filter P l = l.
Proof.
  induction l as [|a l IH]; intros Hall; [done|].
  rewrite filter_cons, decide_True by (apply Hall; left).
  rewrite IH; [done|]. intros b Hb. apply Hall. by right.
Qed.

Section keep_duplicated.
Context {A : Type} `{EqDecision V} (key : A -> V).
Implicit Types (rows : list A).

(** The rows whose key occurs at least twice among the keys of [rows]. *)
Abbreviation kept rows :=
(filter (fun row => 2 ≤ pandas.occurrences (key row) (key <$> rows)) rows).

(** A key that is kept loses none of its rows. *)
Lemma occurrences_kept rows v :
2 ≤ pandas.occurrences v (key <$> rows) ->
pandas.occurrences v (key <$> kept rows)
= pandas.occurrences v (key <$> rows).
Proof.
intros Htwo. rewrite !occurrences_fmap. f_equal.
rewrite list_filter_filter. apply list_filter_iff.
intros row. split; [tauto|]. intros Hkey. split; [done|]. by rewrite Hkey.
Qed.

Lemma kept_partner rows row :
row ∈ kept rows -> 2 ≤ pandas.occurrences (key row) (key <$> kept rows).
Proof.
intros [Hin Htwo]%list_elem_of_filter. by rewrite occurrences_kept.
Qed.

Lemma kept_idemp rows : kept (kept rows) = kept rows.
Proof. apply filter_all. intros row. apply kept_partner. Qed.

Lemma kept_perm rows1 rows2 : rows1 ≡ₚ rows2 -> kept rows1 ≡ₚ kept rows2.
Proof.
intros Hperm.
etrans; [apply (filter_Permutation _ _ _ Hperm)|].
erewrite list_filter_iff; [done|].
intros row. cbn.
by rewrite (occurrences_perm _ _ _ (fmap_Permutation key _ _ Hperm)).
Qed.

Lemma kept_not_single rows : length (kept rows) ≠ 1.
Proof.
intros Hone. destruct (kept rows) as [|row [|]] eqn:Hk; try done.
assert (Hin : row ∈ kept rows) by (rewrite Hk; left).
apply kept_partner in Hin. rewrite Hk in Hin.
rewrite fmap_cons, fmap_nil, occurrences_cons, occurrences_nil in Hin.
destruct (decide (key row = key row)); lia.
Qed.
End keep_duplicated.

(** X9. What [list_all_duplicates] returns is closed: every record has
    another record of the result with the same hash, so the result
    never has exactly one record, and keeping the duplicated records of
    the result once more changes nothing but, possibly, their order. *)
Theorem list_all_duplicates_closed `{pandas.SortKind} fs folder ext fastscan :
  exists out,
    list_all_duplicates fs folder ext fastscan = Ok out
    /\ (forall row, row ∈ out -> 2 ≤ pandas.occurrences row.2 (hash_column out))
    /\ (forall i row, out !! i = Some row ->
          exists j other, j ≠ i /\ out !! j = Some other /\ other.2 = row.2)
    /\ length out ≠ 1
    /\ exists again, grouper out = Ok again /\ again ≡ₚ out.
Proof.
  rewrite list_all_duplicates_spec. cbn zeta.
  set (df := table_of fs _).
  destruct (grouper_spec df) as (out & -> & Hout & _).
  exists out. split; [done|].
  assert (Hdup : duplicated_rows out ≡ₚ out).
  { etrans; [apply (kept_perm snd out (duplicated_rows df) Hout)|].
    etrans; [|symmetry; apply Hout]. apply reflexive_eq.
    apply (kept_idemp snd df). }
  assert (Hpartner : forall row, row ∈ out ->
            2 ≤ pandas.occurrences row.2 (hash_column out)).
  { intros row Hrow. rewrite <- Hdup in Hrow.
    by apply elem_of_duplicated_rows in Hrow as [_ Htwo]. }
  split; [done|]. split; [|split].
  - intros i row Hi.
    assert (Hrow : row ∈ out) by (by eapply list_elem_of_lookup_2).
    apply Hpartner, occurrences_two in Hrow as (a & b & Hab & Ha & Hb).
    unfold hash_column in Ha, Hb.
    apply list_lookup_fmap_Some_1 in Ha as (ra & Hra & Ha).
    apply list_lookup_fmap_Some_1 in Hb as (rb & Hrb & Hb).
    destruct (decide (a = i)) as [->|Hai].
    + exists b, rb. split; [done|]. by split.
    + exists a, ra. split; [done|]. by split.
  - rewrite (Permutation_length Hout). apply (kept_not_single snd df).
  - destruct (grouper_spec out) as (again & -> & Hagain & _).
    exists again. split; [done|]. by rewrite Hagain.
Qed.

(** ** Pre-selection *)

Lemma preselected_idemp fs files :
  preselected fs (preselected fs files) = preselected fs files.
Proof.
  unfold preselected at 1.
  assert (Hchecked :
    filter (fun file => isfile fs file) (preselected fs files)
    = preselected fs files).
  { apply filter_all. intros file Hin. unfold preselected in Hin.
    apply list_elem_of_filter in Hin as [_ Hin].
    by apply list_elem_of_filter in Hin as [Hfile _]. }
  cbn zeta. rewrite Hchecked. apply (kept_idemp (file_size fs)).
Qed.

(** X8. Pre-selecting twice is pre-selecting once: [preselect] returns
    its own result unchanged, every path it keeps being a regular file
    with a partner of the same size among the paths kept. *)
Theorem preselect_idempotent fs (input_files : list string) :
  exists out,
    preselect fs input_files = Ok out
    /\ preselect fs out = Ok out
    /\ length out ≠ 1
    /\ forall i file, out !! i = Some file ->
         isfile fs file = true
         /\ exists j other, j ≠ i /\ out !! j = Some other
                            /\ getsize fs other = getsize fs file.
Proof.
  exists (preselected fs input_files).
  rewrite !preselect_preselected, preselected_idemp.
  split; [done|]. split; [done|]. split.
  - apply (kept_not_single (file_size fs)).
  - intros i file Hi.
    assert (Hin : file ∈ preselected fs input_files)
      by (by eapply list_elem_of_lookup_2).
    assert (Hfiles : forall f, f ∈ preselected fs input_files -> isfile fs f = true).
    { intros f Hf. unfold preselected in Hf.
      apply list_elem_of_filter in Hf as [_ Hf].
      apply list_elem_of_filter in Hf as [Hf _]. by apply Is_true_true. }
    split; [by apply Hfiles|].
    apply (kept_partner (file_size fs)), occurrences_two in Hin
      as (a & b & Hab & Ha & Hb).
    apply list_lookup_fmap_Some_1 in Ha as (fa & Hsa & Ha).
    apply list_lookup_fmap_Some_1 in Hb as (fb & Hsb & Hb).
    assert (Hsize : forall f, f ∈ preselected fs input_files ->
              file_size fs f = file_size fs file ->
              getsize fs f = getsize fs file).
    { intros f Hf. pose proof (Hfiles f Hf) as Hff.
      pose proof (Hfiles file (list_elem_of_lookup_2 _ _ _ Hi)) as Hfile.
      rewrite !getsize_isfile by done. by intros ->. }
    destruct (decide (a = i)) as [->|Hai].
    + exists b, fb. split; [done|]. split; [done|].
      apply Hsize; [by eapply list_elem_of_lookup_2|done].
    + exists a, fa. split; [done|]. split; [done|].
      apply Hsize; [by eapply list_elem_of_lookup_2|done].
Qed.

(** X7. When [create_table] returns a table with and without
    pre-selection, the table built with pre-selection is part of the
    other one: it is a sublist of it (same rows, same order, some left
    out), and holds regular files only.  The file column of the full
    table is the listing, and the two columns are aligned: the hash of
    a row is what [hashtable] returns for the path of that row. *)
Theorem create_table_preselected fs folder ext (full pre : table) :
  create_table fs folder ext false = Ok full ->
  create_table fs folder ext true = Ok pre ->
  pre `sublist_of` full
  /\ (forall row, row ∈ pre -> isfile fs row.1 = true)
  /\ file_column full = filelist fs (format_path fs folder) ext
  /\ (forall row, row ∈ full ->
        hashtable fs (OnePath row.1) = Ok [row.2]).
Proof.
  rewrite !create_table_spec. cbn zeta.
  set (files := filelist fs (format_path fs folder) ext).
  intros [= <-] [= <-]. split; [|split; [|split]].
  - unfold table_of. apply fmap_sublist. unfold preselected.
    etrans; apply sublist_filter.
  - intros row Hrow. unfold table_of in Hrow.
    apply list_elem_of_fmap in Hrow as (file & -> & Hfile). cbn.
    unfold preselected in Hfile.
    apply list_elem_of_filter in Hfile as [_ Hfile].
    apply list_elem_of_filter in Hfile as [Hfile _]. by apply Is_true_true.
  - apply file_column_table_of.
  - intros row [Hin ->]%elem_of_table_of. apply hashtable_one_path.
    pose proof (filelist_admissible fs (format_path fs folder) ext) as Hall.
    rewrite Forall_forall in Hall. by apply Hall.
Qed.

Lemma create_table_preselected_witness :
  [("/sizes/x", hashlib.hexdigest (bytes "AB"));
   ("/sizes/y", hashlib.hexdigest (bytes "CD"))]
    `sublist_of` table_of fs_scenarios ["/sizes/x"; "/sizes/y"]
  /\ [] `sublist_of` [("/d/u1", no_hash); ("/d/u2", no_hash)].
Proof.
  split.
  - apply (create_table_preselected fs_scenarios "/sizes" None
             (table_of fs_scenarios ["/sizes/x"; "/sizes/y"])
             [("/sizes/x", hashlib.hexdigest (bytes "AB"));
              ("/sizes/y", hashlib.hexdigest (bytes "CD"))]);
      vm_compute; reflexivity.
  - apply (create_table_preselected fs_unreadable "/d" None
             [("/d/u1", no_hash); ("/d/u2", no_hash)] []);
      vm_compute; reflexivity.
Defined.

(** ** Duplicates, file by file *)



Lemma sublist_lookup_distinct {A : Type} (l1 l2 : list A) i j p q :
  l1 `sublist_of` l2 ->
  i ≠ j -> l1 !! i = Some p -> l1 !! j = Some q ->
  exists i' j', i' ≠ j' /\ l2 !! i' = Some p /\ l2 !! j' = Some q.
Proof.
  intros Hsub. revert i j.
  induction Hsub as [|x l1 l2 Hsub IH|x l1 l2 Hsub IH]; intros i j Hij Hi Hj.
  - done.
  - destruct i as [|i], j as [|j]; cbn in Hi, Hj; [done| | |].
    + injection Hi as ->.
      assert (Hin : q ∈ l2).
      { eapply elem_of_sublist; [|done]. by eapply list_elem_of_lookup_2. }
      apply list_elem_of_lookup_1 in Hin as [k Hk]. by exists 0, (S k).
    + injection Hj as ->.
      assert (Hin : p ∈ l2).
      { eapply elem_of_sublist; [|done]. by eapply list_elem_of_lookup_2. }
      apply list_elem_of_lookup_1 in Hin as [k Hk]. by exists (S k), 0.
    + destruct (IH i j) as (i' & j' & Hij' & Hi' & Hj'); [lia|done|done|].
      exists (S i'), (S j'). split; [lia|done].
  - destruct (IH i j) as (i' & j' & Hij' & Hi' & Hj'); [done..|].
    exists (S i'), (S j'). split; [lia|done].
Qed.

Lemma readable_fingerprint fs file content :
  resolve fs file = Some (File content Readable) ->
  fingerprint fs file = hashlib.hexdigest content
  /\ isfile fs file = true
  /\ file_size fs file = Z.of_nat (length content).
Proof.
  intros Hres. split; [|split].
  - apply fingerprint_open. by apply open_readable.
  - unfold isfile. by rewrite Hres.
  - unfold file_size, getsize.
    by rewrite (resolve_no_nul _ _ _ Hres), Hres.
Qed.

Lemma table_of_duplicated fs files i j p q :
  i ≠ j -> files !! i = Some p -> files !! j = Some q ->
  fingerprint fs p = fingerprint fs q ->
  (p, fingerprint fs p) ∈ duplicated_rows (table_of fs files).
Proof.
  intros Hij Hi Hj Hfp. apply elem_of_duplicated_rows. split.
  - apply elem_of_table_of. split; [by eapply list_elem_of_lookup_2|done].
  - cbn [snd]. rewrite hash_column_table_of. apply occurrences_two.
    exists i, j. split; [done|]. rewrite !list_lookup_fmap, Hi, Hj. cbn.
    split; [done|]. by rewrite Hfp.
Qed.



(** X11. Nothing is reported without a partner: a record of the result
    whose hash is a digest names a listed file that was read to its
    end, and another position of the listing holds a file that was read
    to its end and has the same SHA-256 digest; a record whose hash is
    the failure marker names a listed file that could not be hashed,
    and so does another position of the listing. *)
Theorem reported_have_partner `{pandas.SortKind} fs folder ext fastscan :
  let files := filelist fs (format_path fs folder) ext in
  exists out,
    list_all_duplicates fs folder ext fastscan = Ok out
    /\ forall p h, (p, h) ∈ out ->
         exists i j q,
           i ≠ j /\ files !! i = Some p /\ files !! j = Some q
           /\ ((h = no_hash
                /\ (forall c, resolve fs p ≠ Some (File c Readable))
                /\ (forall c, resolve fs q ≠ Some (File c Readable)))
               \/ (exists c d,
                     h = hashlib.hexdigest c
                     /\ resolve fs p = Some (File c Readable)
                     /\ resolve fs q = Some (File d Readable)
                     /\ SHA256.digest d = SHA256.digest c)).
Proof.
  intros files. rewrite list_all_duplicates_spec. cbn zeta. fold files.
  set (files' := if fastscan then preselected fs files else files).
  assert (Hsub : files' `sublist_of` files).
  { unfold files'. destruct fastscan; [|done].
    unfold preselected. etrans; apply sublist_filter. }
  destruct (grouper_spec (table_of fs files')) as (out & -> & Hout & _).
  exists out. split; [done|]. intros p h Hin. rewrite Hout in Hin.
  apply elem_of_duplicated_rows in Hin as [Hrow Htwo]. cbn [snd] in Htwo.
  apply elem_of_table_of in Hrow as [Hp Hh]. cbn [fst snd] in Hp, Hh.
  rewrite hash_column_table_of in Htwo.
  apply occurrences_two in Htwo as (a & b & Hab & Ha & Hb).
  apply list_lookup_fmap_Some_1 in Ha as (fa & Hfa & Ha).
  apply list_lookup_fmap_Some_1 in Hb as (fb & Hfb & Hb).
  apply list_elem_of_lookup_1 in Hp as [i Hi].
  assert (Hother : exists j q, i ≠ j /\ files' !! j = Some q
                               /\ fingerprint fs q = h).
  { destruct (decide (i = a)) as [->|Hia].
    - exists b, fb. by rewrite <- Hfb.
    - exists a, fa. by rewrite <- Hfa. }
  destruct Hother as (j & q & Hij & Hj & Hq).
  destruct (sublist_lookup_distinct files' files i j p q Hsub Hij Hi Hj)
    as (i' & j' & Hij' & Hi' & Hj').
  exists i', j', q. split; [done|]. split; [done|]. split; [done|].
  assert (Hmark : forall file, fingerprint fs file = no_hash ->
            forall c, resolve fs file ≠ Some (File c Readable)).
  { intros file Hfile c Hres.
    apply readable_fingerprint in Hres as (Hfc & _).
    rewrite Hfc in Hfile. by apply hexdigest_not_no_hash in Hfile. }
  destruct (decide (h = no_hash)) as [Hno|Hdig].
  - left. split; [done|]. split; apply Hmark; congruence.
  - right.
    destruct (fingerprint_digest fs p) as (c & Hc & Hfc); [congruence|].
    destruct (fingerprint_digest fs q) as (d & Hd & Hfd); [congruence|].
    exists c, d. split; [congruence|].
    split; [by apply open_readable|]. split; [by apply open_readable|].
    apply hexdigest_inj. congruence.
Qed.

(** ** Looking for the copies of one file *)

(** A target that cannot be printed or holds a NUL character stops
    [find_duplicates] before the folder is looked at. *)
Lemma find_duplicates_target_rejected `{pandas.SortKind} fs file folder :
  admissible fs (format_path fs file) = false ->
  find_duplicates fs file folder = Raise ValueError.
Proof.
  intros Hbad. unfold find_duplicates.
  change (hashtable fs (OnePath (format_path fs file)))
    with (hashtable fs (Paths [format_path fs file])).
  rewrite hashtable_aborts; [done|]. by apply Exists_cons_hd.
Qed.

(** X12. A table returned by [find_duplicates] is made of records of
    listed files that carry the hash of the target; it never has
    exactly one record; and when the target itself is listed in the
    folder, a result that is not empty holds the target's own record. *)
Theorem find_duplicates_result `{pandas.SortKind} fs file folder out :
  let target := format_path fs file in
  let files := filelist fs (format_path fs (format_path fs folder)) None in
  find_duplicates fs file folder = Ok out ->
  (forall row, row ∈ out ->
     row.2 = fingerprint fs target /\ row.1 ∈ files
     /\ row.2 = fingerprint fs row.1)
  /\ length out ≠ 1
  /\ (target ∈ files -> out ≠ [] -> (target, fingerprint fs target) ∈ out).
Proof.
  intros target files.
  destruct (admissible fs target) eqn:Hadm;
    [|by rewrite find_duplicates_target_rejected].
  rewrite find_duplicates_spec, list_all_duplicates_spec by done.
  cbn zeta. fold files target.
  destruct (grouper_spec (table_of fs files)) as (dups & -> & Hperm & _).
  rewrite bind_Ok. intros [= <-].
  set (h := fingerprint fs target).
  assert (Hout : filter (fun row => row.2 = h) dups
                 ≡ₚ filter (fun row => row.2 = h)
                      (duplicated_rows (table_of fs files)))
    by (by rewrite Hperm).
  split; [|split].
  - intros row Hrow. rewrite Hout in Hrow.
    apply list_elem_of_filter in Hrow as [Hh Hrow].
    apply elem_of_duplicated_rows in Hrow as [Hrow _].
    by apply elem_of_table_of in Hrow as [Hin Hfp].
  - rewrite (Permutation_length Hout). intros Hone.
    destruct (filter _ (duplicated_rows _)) as [|row [|]] eqn:Hrows; try done.
    assert (Hrow : row ∈ filter (fun row => row.2 = h)
                           (duplicated_rows (table_of fs files)))
      by (rewrite Hrows; left).
    apply list_elem_of_filter in Hrow as [Hh Hrow].
    apply (kept_partner snd) in Hrow.
    rewrite occurrences_fmap, Hh in Hrow.
    change (2 ≤ length (filter (fun row => row.2 = h)
                          (duplicated_rows (table_of fs files)))) in Hrow.
    rewrite Hrows in Hrow. cbn in Hrow. lia.
  - intros Htarget Hne. rewrite Hout.
    destruct (filter (fun row => row.2 = h) dups) as [|row rest] eqn:Hrows;
      [done|].
    assert (Hrow : row ∈ filter (fun row => row.2 = h)
                           (duplicated_rows (table_of fs files)))
      by (rewrite <- Hout; left).
    apply list_elem_of_filter in Hrow as [Hh Hrow].
    apply list_elem_of_filter. split; [done|].
    apply elem_of_duplicated_rows in Hrow as [_ Htwo].
    apply elem_of_duplicated_rows. split.
    + by apply elem_of_table_of.
    + cbn [snd]. by rewrite <- Hh.
Qed.

Lemma find_duplicates_result_witness :
  let out := [("/data/a.txt", hashlib.hexdigest (bytes "X"));
              ("/data/b.txt", hashlib.hexdigest (bytes "X"))] in
  let target := format_path fs_scenario1 "data/c.txt/../a.txt" in
  let files :=
    filelist fs_scenario1
      (format_path fs_scenario1 (format_path fs_scenario1 "/data")) None in
  (forall row, row ∈ out ->
     row.2 = fingerprint fs_scenario1 target /\ row.1 ∈ files
     /\ row.2 = fingerprint fs_scenario1 row.1)
  /\ length out ≠ 1
  /\ (target ∈ files -> out ≠ [] ->
      (target, fingerprint fs_scenario1 target) ∈ out).
Proof.
  apply (find_duplicates_result (H := quicksort_kind) fs_scenario1
           "data/c.txt/../a.txt" "/data"
           [("/data/a.txt", hashlib.hexdigest (bytes "X"));
            ("/data/b.txt", hashlib.hexdigest (bytes "X"))]).
  vm_compute. reflexivity.
Defined.

(** X13. [find_duplicates] finds the copies: when the target can be
    read and two listed files of the folder can be read and hold its
    content, both are in the result, with the digest of that content
    (the target counts, when it is itself one of the listed files). *)
Theorem find_duplicates_finds_copies `{pandas.SortKind} fs file folder
    i j p q content :
  let files := filelist fs (format_path fs (format_path fs folder)) None in
  resolve fs (format_path fs file) = Some (File content Readable) ->
  i ≠ j -> files !! i = Some p -> files !! j = Some q ->
  resolve fs p = Some (File content Readable) ->
  resolve fs q = Some (File content Readable) ->
  exists out,
    find_duplicates fs file folder = Ok out
    /\ (p, hashlib.hexdigest content) ∈ out
    /\ (q, hashlib.hexdigest content) ∈ out.
Proof.
  intros files Htarget Hij Hi Hj Hp Hq.
  pose proof (resolve_valid _ _ _ Htarget) as [Hadm _].
  apply readable_fingerprint in Htarget as (Hft & _).
  apply readable_fingerprint in Hp as (Hfp & _).
  apply readable_fingerprint in Hq as (Hfq & _).
  rewrite find_duplicates_spec, list_all_duplicates_spec by done.
  cbn zeta. fold files.
  destruct (grouper_spec (table_of fs files)) as (dups & -> & Hperm & _).
  rewrite bind_Ok. eexists. split; [done|]. rewrite Hft.
  split; apply list_elem_of_filter; (split; [done|]); rewrite Hperm.
  - rewrite <- Hfp. apply (table_of_duplicated fs files i j p q); try done.
    congruence.
  - rewrite <- Hfq. apply (table_of_duplicated fs files j i q p); try done.
    congruence.
Qed.

Lemma find_duplicates_finds_copies_witness :
  exists out,
    find_duplicates (H := quicksort_kind) fs_scenario1 "data/c.txt/../a.txt" "/data"
    = Ok out
    /\ ("/data/a.txt", hashlib.hexdigest (bytes "X")) ∈ out
    /\ ("/data/b.txt", hashlib.hexdigest (bytes "X")) ∈ out.
Proof.
  apply (find_duplicates_finds_copies (H := quicksort_kind) fs_scenario1
           "data/c.txt/../a.txt" "/data" 0 1 "/data/a.txt" "/data/b.txt" (bytes "X"));
    [reflexivity|lia|reflexivity..].
Defined.

Lemma find_duplicates_unique_content_witness :
  find_duplicates (H := quicksort_kind) fs_scenarios "/cmp/y.txt" "/ref" = Ok [].
Proof.
  apply (find_duplicates_unique_content (H := quicksort_kind) fs_scenarios
           "/cmp/y.txt" "/ref" (bytes "X")).
  - reflexivity.
  - intros p c Hp Hopen _. vm_compute in Hp.
    apply elem_of_cons in Hp as [->|Hp]; [|by apply elem_of_nil in Hp].
    vm_compute in Hopen. by injection Hopen as <-.
  - intros i j p q Hij Hi Hj _ _.
    destruct i as [|i], j as [|j]; vm_compute in Hi, Hj; try done.
Defined.


(** ** Comparing two folders *)

Lemma elem_of_drop_duplicates_matching fs reference files row :
  row ∈ pandas.drop_duplicates (matching_rows reference (table_of fs files))
  <-> row ∈ table_of fs files /\ row.2 ∈ hash_column reference.
Proof.
  split.
  - intros Hin. eapply elem_of_sublist in Hin; [|apply drop_duplicates_sublist].
    apply list_elem_of_filter in Hin. tauto.
  - intros [Hin Hhash]. apply drop_duplicates_first.
    + by apply list_elem_of_filter.
    + apply not_elem_of_nil.
    + intros r' [_ Hr']%list_elem_of_filter Heq.
      by apply (functional_table_of fs files).
Qed.

Lemma fingerprint_unreadable fs file :
  (forall content, resolve fs file ≠ Some (File content Readable)) ->
  fingerprint fs file = no_hash.
Proof.
  intros Hno. unfold fingerprint.
  destruct (open fs file) as [[content [|]]|e] eqn:Hopen; try done.
  apply open_readable in Hopen. by destruct (Hno content).
Qed.

(** X14. Compared with itself, a folder is reported whole: every record
    of its table is in the result. *)
Theorem compare_folders_self fs folder ext :
  exists df out,
    create_table fs folder ext false = Ok df
    /\ compare_folders fs folder folder ext = Ok out
    /\ (forall row, row ∈ out <-> row ∈ df)
    /\ (NoDup (file_column df) -> out = df).
Proof.
  rewrite create_table_spec, compare_folders_spec. cbn zeta.
  set (files := filelist fs (format_path fs folder) ext).
  eexists _, _. split; [done|]. split; [done|].
  assert (Hall : matching_rows (table_of fs files) (table_of fs files)
                 = table_of fs files).
  { apply filter_all. intros row Hrow. unfold hash_column.
    apply list_elem_of_fmap. by exists row. }
  split.
  - intros row. rewrite elem_of_drop_duplicates_matching. split; [tauto|].
    intros Hrow. split; [done|]. unfold hash_column.
    apply list_elem_of_fmap. by exists row.
  - rewrite Hall. unfold file_column, pandas.drop_duplicates.
    generalize (table_of fs files). intros rows Hnd.
    enough (Hgen : forall seen, (forall r, r ∈ rows -> r.1 ∉ seen) ->
              pandas.drop_duplicates_from seen rows = rows).
    { apply Hgen. intros r _. apply not_elem_of_nil. }
    induction rows as [|r rows IH]; intros seen Hseen; [done|].
    cbn [pandas.drop_duplicates_from].
    rewrite decide_False by (apply Hseen; left).
    rewrite fmap_cons in Hnd. apply NoDup_cons in Hnd as [Hr Hnd].
    f_equal. apply IH; [done|]. intros r' Hr'.
    rewrite not_elem_of_cons. split.
    + intros Heq. apply Hr. rewrite <- Heq. apply list_elem_of_fmap. by exists r'.
    + apply Hseen. by right.
Qed.

(** X15. The failure marker is compared like a digest: a file of the
    compare folder that cannot be hashed is reported as soon as one
    file of the reference folder cannot be hashed either, whatever the
    two files hold. *)
Theorem compare_folders_unreadable fs reference_folder compare_folder ext p q :
  p ∈ filelist fs (format_path fs reference_folder) ext ->
  q ∈ filelist fs (format_path fs compare_folder) ext ->
  (forall content, resolve fs p ≠ Some (File content Readable)) ->
  (forall content, resolve fs q ≠ Some (File content Readable)) ->
  exists out,
    compare_folders fs reference_folder compare_folder ext = Ok out
    /\ (q, no_hash) ∈ out.
Proof.
  intros Hp Hq Hpno Hqno. rewrite compare_folders_spec.
  eexists. split; [done|]. apply elem_of_drop_duplicates_matching. split.
  - apply elem_of_table_of. split; [done|]. cbn.
    symmetry. by apply fingerprint_unreadable.
  - cbn [snd]. rewrite hash_column_table_of. apply list_elem_of_fmap.
    exists p. split; [|done]. symmetry. by apply fingerprint_unreadable.
Qed.

Lemma compare_folders_unreadable_witness :
  exists out,
    compare_folders fs_unreadable "/t" "/d" None = Ok out
    /\ ("/d/u2", no_hash) ∈ out.
Proof.
  apply (compare_folders_unreadable fs_unreadable "/t" "/d" None
           "/t/secret" "/d/u2").
  - vm_compute. repeat constructor.
  - vm_compute. repeat constructor.
  - intros content. vm_compute. discriminate.
  - intros content. vm_compute. discriminate.
Defined.

(** X16. A copy in the compare folder is found: when a file of the
    reference folder and a file of the compare folder can be read and
    hold the same content, the file of the compare folder is in the
    result with the digest of that content. *)
Theorem compare_folders_finds_copy fs reference_folder compare_folder ext
    p q content :
  p ∈ filelist fs (format_path fs reference_folder) ext ->
  q ∈ filelist fs (format_path fs compare_folder) ext ->
  resolve fs p = Some (File content Readable) ->
  resolve fs q = Some (File content Readable) ->
  exists out,
    compare_folders fs reference_folder compare_folder ext = Ok out
    /\ (q, hashlib.hexdigest content) ∈ out.
Proof.
  intros Hp Hq Hpc Hqc. rewrite compare_folders_spec.
  apply readable_fingerprint in Hpc as (Hfp & _).
  apply readable_fingerprint in Hqc as (Hfq & _).
  eexists. split; [done|]. apply elem_of_drop_duplicates_matching. split.
  - apply elem_of_table_of. by split.
  - cbn [snd]. rewrite hash_column_table_of. apply list_elem_of_fmap.
    by exists p.
Qed.

Lemma compare_folders_finds_copy_witness :
  exists out,
    compare_folders fs_scenarios "/ref" "/cmp" None = Ok out
    /\ ("/cmp/y.txt", hashlib.hexdigest (bytes "X")) ∈ out.
Proof.
  apply (compare_folders_finds_copy fs_scenarios "/ref" "/cmp" None
           "/ref/x.txt" "/cmp/y.txt" (bytes "X")).
  - vm_compute. repeat constructor.
  - vm_compute. repeat constructor.
  - reflexivity.
  - reflexivity.
Defined.

(** X17. With no file listed on one side there is nothing to report:
    [compare_folders] returns the empty table when the reference folder
    or the compare folder lists no file (an empty or a missing folder,
    or no file with the extension asked for). *)
Theorem compare_folders_empty fs reference_folder compare_folder ext :
  filelist fs (format_path fs reference_folder) ext = []
  \/ filelist fs (format_path fs compare_folder) ext = [] ->
  compare_folders fs reference_folder compare_folder ext = Ok [].
Proof.
  intros Hempty. rewrite compare_folders_spec. f_equal.
  destruct Hempty as [-> | ->]; [|done].
  assert (Hnone : matching_rows (table_of fs [])
            (table_of fs (filelist fs (format_path fs compare_folder) ext)) = []).
  { apply filter_none, Forall_forall. intros row _ Hin.
    by apply elem_of_nil in Hin. }
  by rewrite Hnone.
Qed.

Lemma compare_folders_empty_witness :
  compare_folders fs_scenarios "/empty" "/cmp" None = Ok []
  /\ compare_folders fs_scenarios "/cmp" "/missing" (Some ".txt") = Ok [].
Proof.
  split.
  - apply (compare_folders_empty fs_scenarios "/empty" "/cmp" None).
    left. reflexivity.
  - apply (compare_folders_empty fs_scenarios "/cmp" "/missing" (Some ".txt")).
    right. reflexivity.
Defined.

Lemma fingerprint_cases fs file h :
  fingerprint fs file = h ->
  (h = no_hash /\ forall c, resolve fs file ≠ Some (File c Readable))
  \/ (exists c, h = hashlib.hexdigest c
                /\ resolve fs file = Some (File c Readable)).
Proof.
  intros <-. destruct (decide (fingerprint fs file = no_hash)) as [Hno|Hdig].
  - left. split; [done|]. intros c Hres.
    apply readable_fingerprint in Hres as (Hfc & _).
    rewrite Hfc in Hno. by apply hexdigest_not_no_hash in Hno.
  - right. destruct (fingerprint_digest fs file Hdig) as (c & Hc & Hfc).
    exists c. split; [done|]. by apply open_readable.
Qed.

(** X24. Nothing is reported by [compare_folders] without a match: a
    record of the result names a listed file of the compare folder, and
    a listed file of the reference folder has the same hash; when the
    hash is a digest both files were read to their end and have the
    same SHA-256 digest, when it is the failure marker neither could
    be hashed. *)
Theorem compare_folders_partner fs reference_folder compare_folder ext :
  exists out,
    compare_folders fs reference_folder compare_folder ext = Ok out
    /\ forall q h, (q, h) ∈ out ->
         q ∈ filelist fs (format_path fs compare_folder) ext
         /\ exists p,
              p ∈ filelist fs (format_path fs reference_folder) ext
              /\ ((h = no_hash
                   /\ (forall c, resolve fs p ≠ Some (File c Readable))
                   /\ (forall c, resolve fs q ≠ Some (File c Readable)))
                  \/ (exists c d,
                        h = hashlib.hexdigest d
                        /\ resolve fs p = Some (File c Readable)
                        /\ resolve fs q = Some (File d Readable)
                        /\ SHA256.digest c = SHA256.digest d)).
Proof.
  rewrite compare_folders_spec. eexists. split; [done|].
  intros q h [Hrow Hhash]%elem_of_drop_duplicates_matching.
  apply elem_of_table_of in Hrow as [Hq Hfq]. cbn [fst snd] in Hq, Hfq, Hhash.
  split; [done|].
  rewrite hash_column_table_of in Hhash.
  apply list_elem_of_fmap in Hhash as (p & Hfp & Hp).
  exists p. split; [done|].
  destruct (fingerprint_cases fs q h) as [[Hno Hqno]|(d & Hd & Hqd)]; [done| |].
  - left. split; [done|]. split; [|done].
    destruct (fingerprint_cases fs p h) as [[_ Hpno]|(c & Hc & _)]; [done|done|].
    rewrite Hno in Hc. symmetry in Hc. by apply hexdigest_not_no_hash in Hc.
  - right.
    destruct (fingerprint_cases fs p h) as [[Hno _]|(c & Hc & Hpc)]; [done| |].
    + rewrite Hno in Hd. symmetry in Hd. by apply hexdigest_not_no_hash in Hd.
    + exists c, d. split; [done|]. split; [done|]. split; [done|].
      apply hexdigest_inj. congruence.
Qed.

(** ** Scanning fewer files *)

Lemma duplicated_rows_sublist fs files1 files2 row :
  files1 `sublist_of` files2 ->
  row ∈ duplicated_rows (table_of fs files1) ->
  row ∈ duplicated_rows (table_of fs files2).
Proof.
  intros Hsub [Hrow Htwo]%elem_of_duplicated_rows.
  apply elem_of_duplicated_rows. split.
  - apply elem_of_table_of in Hrow as [Hin Hfp]. apply elem_of_table_of.
    split; [|done]. by eapply elem_of_sublist.
  - etrans; [exact Htwo|]. apply occurrences_sublist.
    unfold hash_column, table_of. by do 2 apply fmap_sublist.
Qed.

Lemma filelist_ext_sublist fs filepath ext :
  filelist fs filepath ext `sublist_of` filelist fs filepath None.
Proof.
  rewrite !filelist_unfold.
  induction (walk fs filepath) as [|[[path dirs] files] w IH]; [done|].
  cbn. apply sublist_app; [|done].
  apply fmap_sublist. etrans; [apply sublist_filter|].
  rewrite filter_all; [done|]. intros name _. by left.
Qed.

Lemma filter_sublist_mono {A : Type} (P Q : A -> Prop)
    `{!forall a, Decision (P a)} `{!forall a, Decision (Q a)} (l1 l2 : list A) :
  (forall a, a ∈ l1 -> P a -> Q a) ->
  l1 `sublist_of` l2 -> filter P l1 `sublist_of` filter Q l2.
Proof.
  intros Himp Hsub.
  induction Hsub as [|x l1 l2 Hsub IH|x l1 l2 Hsub IH].
  - done.
  - rewrite !filter_cons.
    assert (Hrest : forall a, a ∈ l1 -> P a -> Q a)
      by (intros a Ha; apply Himp; by right).
    destruct (decide (P x)) as [Hx|Hx].
    + rewrite decide_True by (apply Himp; [left|done]).
      apply sublist_skip. by apply IH.
    + destruct (decide (Q x)); [apply sublist_cons|]; by apply IH.
  - rewrite filter_cons.
    destruct (decide (Q x)); [apply sublist_cons|]; by apply IH.
Qed.

(** X18. Scanning fewer files never adds a duplicate: every record that
    [list_all_duplicates] reports for one extension, with or without
    pre-selection, is a record it reports for the whole folder without
    pre-selection, and it reports no more records. *)
Theorem duplicates_of_fewer_files `{pandas.SortKind} fs folder ext fastscan :
  exists out_part out_whole,
    list_all_duplicates fs folder ext fastscan = Ok out_part
    /\ list_all_duplicates fs folder None false = Ok out_whole
    /\ (forall row, row ∈ out_part -> row ∈ out_whole)
    /\ length out_part ≤ length out_whole.
Proof.
  rewrite !list_all_duplicates_spec. cbn zeta.
  set (files := filelist fs (format_path fs folder) None).
  set (part := if fastscan
               then preselected fs (filelist fs (format_path fs folder) ext)
               else filelist fs (format_path fs folder) ext).
  assert (Hsub : part `sublist_of` files).
  { unfold part. destruct fastscan; [|apply filelist_ext_sublist].
    etrans; [|apply filelist_ext_sublist].
    unfold preselected. etrans; apply sublist_filter. }
  destruct (grouper_spec (table_of fs part)) as (out_part & -> & Hpart & _).
  destruct (grouper_spec (table_of fs files)) as (out_whole & -> & Hwhole & _).
  exists out_part, out_whole. split; [done|]. split; [done|]. split.
  - intros row. rewrite Hpart, Hwhole. by apply duplicated_rows_sublist.
  - rewrite Hpart, Hwhole, !duplicated_rows_table_of.
    unfold table_of. rewrite !length_fmap.
    apply sublist_length, filter_sublist_mono; [|done].
    intros file _ Htwo. etrans; [exact Htwo|].
    apply occurrences_sublist. by apply fmap_sublist.
Qed.

(** ** The recursive listing *)

Lemma elem_of_walk_tree top n path dirs files :
  (path, dirs, files) ∈ walk_tree top n
  <-> exists entries, visits top n path entries
                      /\ dirs = dirnames entries /\ files = nondirnames entries.
Proof.
  revert top. induction n as [content acc|entries IH|] using node_nested_ind;
    intros top.
  - split; [by intros ?%elem_of_nil|]. intros (es & Hv & _). inversion Hv.
  - rewrite walk_tree_dir. case_bool_decide as Hlen.
    + split; [by intros ?%elem_of_nil|].
      intros (es & Hv & _). inversion Hv; subst; lia.
    + rewrite elem_of_cons, list_elem_of_bind. split.
      * intros [[= -> -> ->]|([name child] & Hin & Hchild)].
        -- exists entries. split; [constructor; lia|done].
        -- rewrite Forall_forall in IH.
           apply (IH _ Hchild) in Hin as (es & Hv & Hd & Hf).
           exists es. split; [|done].
           eapply visits_sub; [lia|exact Hchild|exact Hv].
      * intros (es & Hv & -> & ->). inversion Hv as [|? ? name child ? ? ? Hchild Hsub]; subst.
        -- by left.
        -- right. exists (name, child). split; [|done].
           rewrite Forall_forall in IH. apply (IH _ Hchild).
           by exists es.
  - split; [by intros ?%elem_of_nil|]. intros (es & Hv & _). inversion Hv.
Qed.

Lemma elem_of_nondirnames name entries :
  name ∈ nondirnames entries
  <-> exists x, (name, x) ∈ entries /\ is_dir x = false.
Proof.
  unfold nondirnames. rewrite list_elem_of_fmap. split.
  - intros ([name' x] & -> & [Hx Hin]%list_elem_of_filter).
    exists x. split; [done|]. cbn in Hx. by destruct (is_dir x).
  - intros (x & Hin & Hx). exists (name, x). split; [done|].
    apply list_elem_of_filter. split; [|done]. cbn. by rewrite Hx.
Qed.

(** X19. [filelist] lists the folder and everything below it: a path is
    listed exactly when it is the path of a directory the walk comes to
    (the folder itself or a directory below it), joined with the name
    of an entry of that directory that is not a directory and, when an
    extension is asked for, has that extension. *)
Theorem filelist_recursive fs filepath ext file :
  file ∈ filelist fs filepath ext
  <-> exists n path entries name x,
        resolve fs filepath = Some n
        /\ visits filepath n path entries
        /\ (name, x) ∈ entries /\ is_dir x = false
        /\ (ext = None \/ Some (posixpath.splitext name).2 = ext)
        /\ file = posixpath.join path name.
Proof.
  rewrite filelist_unfold, list_elem_of_bind. unfold walk. split.
  - intros ([[path dirs] files] & Hfile & Hwalk).
    destruct (resolve fs filepath) as [n|]; [|by apply elem_of_nil in Hwalk].
    apply elem_of_walk_tree in Hwalk as (entries & Hv & -> & ->).
    apply list_elem_of_fmap in Hfile as (name & -> & Hname).
    apply list_elem_of_filter in Hname as [Hext Hname].
    apply elem_of_nondirnames in Hname as (x & Hin & Hx).
    by exists n, path, entries, name, x.
  - intros (n & path & entries & name & x & -> & Hv & Hin & Hx & Hext & ->).
    exists (path, dirnames entries, nondirnames entries). split.
    + apply list_elem_of_fmap. exists name. split; [done|].
      apply list_elem_of_filter. split; [done|].
      apply elem_of_nondirnames. by exists x.
    + apply elem_of_walk_tree. by exists entries.
Qed.

(** ** The shape of a formatted path *)

(** X20. With an absolute working directory, [format_path] returns one
    or two slashes followed by components separated by single slashes,
    none of them empty, ["."] or [".."]; for an absolute path the
    working directory plays no part. *)
Theorem format_path_shape fs file :
  posixpath.isabs (cwd fs) = true ->
  (exists n comps,
     (n = 1 \/ n = 2) /\ Forall clean comps
     /\ format_path fs file
        = posixpath.slashes n +:+ posixpath.join_sep comps)
  /\ (posixpath.isabs file = true ->
      forall fs', format_path fs' file = format_path fs file).
Proof.
  intros Hcwd. split.
  - unfold format_path, posixpath.abspath. rewrite replace_same.
    set (path := if posixpath.isabs file then file
                 else posixpath.join (cwd fs) file).
    assert (Habs : posixpath.isabs path = true).
    { unfold path. destruct (posixpath.isabs file) eqn:Hfile; [done|].
      by apply join_abs. }
    assert (Hne : path ≠ "") by (by intros Heq; rewrite Heq in Habs).
    pose proof (initial_slashes_abs path Habs) as Hn.
    exists (posixpath.initial_slashes path),
      (rev (posixpath.norm_comps (posixpath.initial_slashes path)
              (posixpath.split path) [])).
    split; [done|]. split.
    + apply Forall_rev, norm_comps_clean;
        [lia|apply split_no_sep|constructor].
    + unfold posixpath.normpath. rewrite decide_False by done. cbn zeta.
      rewrite decide_False; [done|].
      destruct Hn as [-> | ->]; cbn [posixpath.slashes];
        by rewrite append_cons.
  - intros Hfile fs'. unfold format_path, posixpath.abspath.
    by rewrite replace_same, Hfile.
Qed.

Lemma format_path_shape_witness :
  exists n comps,
    (n = 1 \/ n = 2) /\ Forall clean comps
    /\ format_path fs_scenario1 "data/./x/../a.txt"
       = posixpath.slashes n +:+ posixpath.join_sep comps.
Proof. apply (format_path_shape fs_scenario1 "data/./x/../a.txt"). reflexivity. Defined.

(** ** The empty path and the dot *)

Lemma append_empty_r s : s +:+ "" = s.
Proof. induction s as [|a s IH]; [done|]. by rewrite append_cons, IH. Qed.

Lemma split_append_sep a b :
  posixpath.split (a +:+ String posixpath.sep b)
  = posixpath.split a ++ posixpath.split b.
Proof.
  induction a as [|c a IH].
  - rewrite append_nil. apply split_sep.
  - rewrite append_cons. cbn [posixpath.split]. rewrite IH.
    destruct (decide (c = posixpath.sep)); [done|].
    pose proof (split_not_nil a) as Hne.
    by destruct (posixpath.split a).
Qed.

Lemma norm_comps_app n l1 l2 acc :
  posixpath.norm_comps n (l1 ++ l2) acc
  = posixpath.norm_comps n l2 (posixpath.norm_comps n l1 acc).
Proof.
  revert acc. induction l1 as [|comp l1 IH]; intros acc; [done|].
  cbn [app posixpath.norm_comps]. repeat case_match; apply IH.
Qed.

Lemma endswith_sep_inv a :
  posixpath.endswith_sep a = true ->
  exists a', a = a' +:+ String posixpath.sep "".
Proof.
  induction a as [|c a IH]; [done|]. cbn [posixpath.endswith_sep].
  destruct a as [|d a].
  - intros ->%bool_decide_eq_true. by exists "".
  - intros Hend. destruct (IH Hend) as (a' & Ha').
    exists (String c a'). by rewrite append_cons, <- Ha'.
Qed.

Lemma initial_slashes_append a t :
  posixpath.isabs a = true ->
  posixpath.endswith_sep a = false \/ String.prefix "/" t = false ->
  posixpath.initial_slashes (a +:+ t) = posixpath.initial_slashes a.
Proof.
  unfold posixpath.isabs, posixpath.initial_slashes, posixpath.startswith.
  destruct a as [|c1 a]; [done|]. rewrite append_cons.
  cbn [String.prefix]. destruct (ascii_dec "/" c1) as [<-|]; [|done].
  rewrite !prefix_empty. intros _ Hor.
  destruct a as [|c2 a].
  - destruct Hor as [Hend|Ht]; [done|]. rewrite append_nil.
    destruct t as [|c t]; [done|]. cbn [String.prefix] in *.
    by rewrite Ht.
  - rewrite append_cons. cbn [String.prefix].
    destruct (ascii_dec "/" c2) as [<-|]; [|done].
    rewrite !prefix_empty. destruct a as [|c3 a].
    + destruct Hor as [Hend|Ht]; [done|]. rewrite append_nil.
      destruct t as [|c t]; [done|]. cbn [String.prefix] in *.
      by rewrite Ht.
    + rewrite append_cons. cbn [String.prefix].
      by rewrite !prefix_empty.
Qed.

Lemma normpath_same x y :
  x ≠ "" -> y ≠ "" ->
  posixpath.initial_slashes x = posixpath.initial_slashes y ->
  posixpath.norm_comps (posixpath.initial_slashes y) (posixpath.split x) []
  = posixpath.norm_comps (posixpath.initial_slashes y) (posixpath.split y) [] ->
  posixpath.normpath x = posixpath.normpath y.
Proof.
  intros Hx Hy Hn Hcomps. unfold posixpath.normpath.
  rewrite (decide_False (P := x = "")) by done.
  rewrite (decide_False (P := y = "")) by done.
  cbn zeta. by rewrite Hn, Hcomps.
Qed.

Lemma normpath_join_here a t :
  posixpath.isabs a = true -> t = "" \/ t = "." ->
  posixpath.normpath (posixpath.join a t) = posixpath.normpath a.
Proof.
  intros Habs Ht.
  assert (Hprefix : posixpath.startswith "/" t = false)
    by (by destruct Ht as [-> | ->]).
  assert (Hdrop : forall n acc, posixpath.norm_comps n [t] acc = acc)
    by (by intros n acc; destruct Ht as [-> | ->]).
  assert (Ha : a ≠ "") by (by intros ->).
  unfold posixpath.join. rewrite Hprefix.
  rewrite bool_decide_eq_false_2 by done. cbn [orb].
  destruct (posixpath.endswith_sep a) eqn:Hend.
  - apply normpath_same; [by destruct a|done| |].
    + apply initial_slashes_append; auto.
    + destruct (endswith_sep_inv a Hend) as (a' & ->).
      rewrite append_assoc, append_cons, append_nil.
      rewrite !split_append_sep, !norm_comps_app.
      assert (Hsplit : posixpath.split t = [t])
        by (by destruct Ht as [-> | ->]).
      rewrite Hsplit, Hdrop. done.
  - apply normpath_same; [by destruct a|done| |].
    + change (String posixpath.sep t) with ("/" +:+ t).
      apply initial_slashes_append; auto.
    + rewrite split_append_sep, norm_comps_app.
      assert (Hsplit : posixpath.split t = [t])
        by (by destruct Ht as [-> | ->]).
      by rewrite Hsplit, Hdrop.
Qed.

(** X21. The empty path and ["."] stand for the working directory:
    [format_path] returns the normal form of the working directory for
    both, so that scanning [''] scans the folder the program runs
    in. *)
Theorem format_path_here `{pandas.SortKind} fs :
  posixpath.isabs (cwd fs) = true ->
  format_path fs "" = posixpath.normpath (cwd fs)
  /\ format_path fs "." = posixpath.normpath (cwd fs)
  /\ format_path fs "" = format_path fs (cwd fs)
  /\ (forall ext fastscan,
        list_all_duplicates fs "" ext fastscan
        = list_all_duplicates fs (cwd fs) ext fastscan).
Proof.
  intros Hcwd.
  assert (Hempty : format_path fs "" = posixpath.normpath (cwd fs)).
  { unfold format_path, posixpath.abspath. rewrite replace_same.
    apply normpath_join_here; auto. }
  assert (Hself : format_path fs (cwd fs) = posixpath.normpath (cwd fs)).
  { unfold format_path, posixpath.abspath. by rewrite replace_same, Hcwd. }
  split; [done|]. split; [|split].
  - unfold format_path, posixpath.abspath. rewrite replace_same.
    apply normpath_join_here; auto.
  - by rewrite Hempty, Hself.
  - intros ext fastscan. unfold list_all_duplicates, create_table.
    by rewrite Hempty, Hself.
Qed.

Lemma format_path_here_witness :
  format_path fs_scenario1 "" = "/" /\ format_path fs_scenario1 "." = "/".
Proof.
  destruct (format_path_here (H := quicksort_kind) fs_scenario1 eq_refl)
    as (Hempty & Hdot & _).
  split; [exact Hempty|exact Hdot].
Defined.
